(** * Roboost Primary Motor Cortex: the motion-control core

    A shallow embedding of the control core of the mecanum robot firmware:
    the kinematics model, the signal filters, the PID regulator, the motor
    channel, the velocity controller, and the [setup]/[loop] functions and
    the velocity-command callback of [src/src/core.cpp].

    Numbers.  The firmware computes on C++ [double]s.  The embedding
    idealises them as the real numbers [R]: rounding, overflow and the
    non-finite values are not modelled.  [millis()] readings are
    [unsigned long] values and keep their wrap-around. *)

From Stdlib Require Import Reals Lra Lia List ZArith Bool.
Import ListNotations.

Open Scope R_scope.

(* ================================================================= *)
(** * Vectors *)

(** [Eigen::Vector3d] and [BLA::Matrix<3>]: components [(0)], [(1)], [(2)]. *)
Record Vector3d : Type := mkVector3d { v0 : R; v1 : R; v2 : R }.

(** A fixed array of four cells, one per wheel, in the order front-left,
    front-right, back-left, back-right ([M0] .. [M3]). *)
Record Quad (A : Type) : Type := mkQuad { q0 : A; q1 : A; q2 : A; q3 : A }.

Arguments mkQuad {A} _ _ _ _.
Arguments q0 {A} _.
Arguments q1 {A} _.
Arguments q2 {A} _.
Arguments q3 {A} _.

(** The comparison [a > b] on [double]s, as a boolean. *)
Definition Rgtb (a b : R) : bool := if Rlt_dec b a then true else false.

(** [Eigen::Vector4d] and [BLA::Matrix<4>]. *)
Definition Vector4d : Type := Quad R.

Definition Vector3d_Zero : Vector3d := mkVector3d 0 0 0.

Definition quad_map {A B : Type} (f : A -> B) (q : Quad A) : Quad B :=
  mkQuad (f (q0 q)) (f (q1 q)) (f (q2 q)) (f (q3 q)).

Definition quad_zip {A B C : Type} (f : A -> B -> C)
    (a : Quad A) (b : Quad B) : Quad C :=
  mkQuad (f (q0 a) (q0 b)) (f (q1 a) (q1 b))
         (f (q2 a) (q2 b)) (f (q3 a) (q3 b)).

Definition quad_all {A : Type} (P : A -> Prop) (q : Quad A) : Prop :=
  P (q0 q) /\ P (q1 q) /\ P (q2 q) /\ P (q3 q).

(* ================================================================= *)
(** * Kinematics model ([kinematics/kinematics.hpp]) *)

Module Kinematics.

(** The private members of [MecanumKinematics4W].  Following the
    specification, [wheel_base_] holds the half wheel-base [a] and
    [track_width_] the half track-width [b]. *)
Record MecanumKinematics4W : Type := mkMecanum {
  wheel_radius_ : R;
  wheel_base_ : R;
  track_width_ : R
}.

(** The geometry factor [k = a + b]. *)
Definition geometry_factor (kin : MecanumKinematics4W) : R :=
  wheel_base_ kin + track_width_ kin.

(** Modelled from the spec: the body of
    [MecanumKinematics4W::calculate_wheel_velocity] is missing from the
    sources (only its declaration is in [kinematics.hpp]).  Inverse
    kinematics, section 4.1: front-left = (vx - vy - k w)/r, front-right =
    (vx + vy + k w)/r, back-left = (vx + vy - k w)/r, back-right =
    (vx - vy + k w)/r. *)
Definition calculate_wheel_velocity (kin : MecanumKinematics4W)
    (robot_velocity : Vector3d) : Vector4d :=
  let r := wheel_radius_ kin in
  let k := geometry_factor kin in
  let vx := v0 robot_velocity in
  let vy := v1 robot_velocity in
  let w := v2 robot_velocity in
  mkQuad ((vx - vy - k * w) / r)
         ((vx + vy + k * w) / r)
         ((vx + vy - k * w) / r)
         ((vx - vy + k * w) / r).

(** Modelled from the spec: the body of
    [MecanumKinematics4W::calculate_robot_velocity] is missing from the
    sources.  Forward kinematics, section 4.1: the least-squares left
    inverse of the inverse map under equal weighting, which is the average
    of the four per-wheel estimates of each body component. *)
Definition calculate_robot_velocity (kin : MecanumKinematics4W)
    (wheel_velocity : Vector4d) : Vector3d :=
  let r := wheel_radius_ kin in
  let k := geometry_factor kin in
  let fl := q0 wheel_velocity in
  let fr := q1 wheel_velocity in
  let bl := q2 wheel_velocity in
  let br := q3 wheel_velocity in
  mkVector3d (r * (fl + fr + bl + br) / 4)
             (r * (- fl + fr + bl - br) / 4)
             (r * (- fl + fr - bl + br) / (4 * k)).

(** The residual of a wheel velocity set [w] against the wheel velocities
    of a body velocity [v]. *)
Definition residual (kin : MecanumKinematics4W) (v : Vector3d)
    (w : Vector4d) : Vector4d :=
  quad_zip Rminus (calculate_wheel_velocity kin v) w.

(** The squared length of a wheel velocity set. *)
Definition norm2 (w : Vector4d) : R :=
  q0 w * q0 w + q1 w * q1 w + q2 w * q2 w + q3 w * q3 w.

(** A wheel velocity set is kinematically consistent when some body
    velocity produces it; for the mecanum layout this is one linear
    equation: the front pair and the back pair have the same sum. *)
Definition consistent (w : Vector4d) : Prop :=
  q0 w + q1 w = q2 w + q3 w.

(** A geometry is usable when the wheel has a radius and the factor [k]
    does not vanish. *)
Definition valid_geometry (kin : MecanumKinematics4W) : Prop :=
  wheel_radius_ kin <> 0 /\ geometry_factor kin <> 0.

End Kinematics.

(* ================================================================= *)
(** * Signal filters *)

Module Filters.

(** Modelled from the spec: the filter classes are missing from the
    sources ([core.cpp] only constructs them).  Section 4.2: a filter is a
    stateful transform [update(sample) -> filtered_sample] with three
    variants.
    - [NoFilter]: pass-through.
    - [MovingAverageFilter W]: keeps the last [W] samples; the output is
      their arithmetic mean, computed over the partial window while fewer
      than [W] samples have arrived.  [samples] lists the window, latest
      sample first.
    - [LowPassFilter]: output = output + alpha * (input - output); the
      coefficient [alpha] is fixed at construction from the cutoff
      frequency and the sampling period. *)
Inductive Filter : Type :=
  | NoFilter : Filter
  | MovingAverage (window_size : nat) (samples : list R) : Filter
  | LowPass (alpha : R) (output : R) : Filter.

(** Modelled from the spec: the constructor [MovingAverageFilter(W)] is
    missing from the sources; it starts on an empty window, so that the
    first outputs are means of the partial window. *)
Definition MovingAverageFilter (window_size : nat) : Filter :=
  MovingAverage window_size [].

(** Modelled from the spec: the constructor of the low-pass filter is
    missing from the sources; the initial output is zero. *)
Definition LowPassFilter (alpha : R) : Filter := LowPass alpha 0.

Definition sum (l : list R) : R := fold_right Rplus 0 l.

Definition mean (l : list R) : R := sum l / INR (length l).

(** Modelled from the spec: [update] of the three filter classes is
    missing from the sources; section 4.2.  Returns the new filter state
    and the filtered sample. *)
Definition update (f : Filter) (sample : R) : Filter * R :=
  match f with
  | NoFilter => (NoFilter, sample)
  | MovingAverage window_size samples =>
      let samples' := firstn window_size (sample :: samples) in
      (MovingAverage window_size samples', mean samples')
  | LowPass alpha output =>
      let output' := output + alpha * (sample - output) in
      (LowPass alpha output', output')
  end.

(** The window a moving-average filter holds (empty for the others). *)
Definition window (f : Filter) : list R :=
  match f with
  | MovingAverage _ samples => samples
  | _ => []
  end.

(** The state a moving-average filter of window [W] is in after the
    samples [history] (oldest first) have been fed to it. *)
Definition feed (f : Filter) (history : list R) : Filter :=
  fold_left (fun g x => fst (update g x)) history f.

End Filters.

(* ================================================================= *)
(** * PID regulator *)

Module PID.

(** Modelled from the spec: the class [PIDController] is missing from the
    sources ([core.cpp] constructs four of them and calls [set_ki]).  The
    constructor arguments are [kp], [ki], [kd],
    [max_expected_sampling_time] and [max_integral]; the state is the
    integral accumulator and the previous error. *)
Record PIDController : Type := mkPID {
  kp : R;
  ki : R;
  kd : R;
  max_expected_sampling_time : R;
  max_integral : R;
  integral : R;
  previous_error : R
}.

(** Modelled from the spec: the constructor of [PIDController] is
    missing from the sources; gains and limits as given, accumulator and
    previous error at zero. *)
Definition PIDController_new (kp ki kd max_expected_sampling_time
    max_integral : R) : PIDController :=
  mkPID kp ki kd max_expected_sampling_time max_integral 0 0.

(** Modelled from the spec: [set_ki] is missing from the sources; it
    retunes the integral gain and nothing else (sections 4.3 and 6). *)
Definition set_ki (c : PIDController) (new_ki : R) : PIDController :=
  mkPID (kp c) new_ki (kd c) (max_expected_sampling_time c)
        (max_integral c) (integral c) (previous_error c).

Definition get_ki (c : PIDController) : R := ki c.

(** [std::clamp(x, lo, hi)]. *)
Definition clamp (x lo hi : R) : R :=
  if Rlt_dec x lo then lo else if Rlt_dec hi x then hi else x.

(** Modelled from the spec: the guard of [compute] on the sampling
    interval, section 4.3: [dt] is degenerate when it is zero, negative,
    or exceeds [max_expected_sampling_time]. *)
Definition degenerate_dt (c : PIDController) (dt : R) : bool :=
  if Rle_dec dt 0 then true
  else if Rlt_dec (max_expected_sampling_time c) dt then true
  else false.

(** Modelled from the spec: section 4.3.  error = setpoint - measured;
    proportional = kp * error; on a degenerate [dt] the derivative and
    integral updates are skipped and the output is the proportional term
    alone; otherwise integral += ki * error * dt, clamped to
    [-max_integral, +max_integral]; derivative = kd * (error -
    previous_error) / dt; output = proportional + integral + derivative.
    Returns the regulator after the call and the control output. *)
Definition compute (c : PIDController) (setpoint measured dt : R)
    : PIDController * R :=
  let error := setpoint - measured in
  let proportional := kp c * error in
  if degenerate_dt c dt then (c, proportional)
  else
    let integral' :=
      clamp (integral c + ki c * error * dt)
            (- max_integral c) (max_integral c) in
    let derivative := kd c * (error - previous_error c) / dt in
    (mkPID (kp c) (ki c) (kd c) (max_expected_sampling_time c)
           (max_integral c) integral' error,
     proportional + integral' + derivative).

(** What can happen to a regulator between two observations: a [compute]
    call or a retuning of the integral gain. *)
Inductive Call : Type :=
  | Compute (setpoint measured dt : R)
  | SetKi (new_ki : R).

Definition call (c : PIDController) (e : Call) : PIDController :=
  match e with
  | Compute setpoint measured dt => fst (compute c setpoint measured dt)
  | SetKi new_ki => set_ki c new_ki
  end.

Definition run (c : PIDController) (calls : list Call) : PIDController :=
  fold_left call calls c.

(** The accumulator lies in [-max_integral, +max_integral]. *)
Definition integral_clamped (c : PIDController) : Prop :=
  - max_integral c <= integral c <= max_integral c.

End PID.

(* ================================================================= *)
(** * Motor channel and motor array *)

Module Motor.

Import PID Filters.

(** Modelled from the spec: the class [PIDMotorController] is missing from
    the sources ([core.cpp] constructs four of them from a driver, an
    encoder, a [PIDController], an input filter, an output filter and
    [MIN_OUTPUT]).  The regulator is taken to be held by reference
    ([core.cpp] hands the global [controller_Mi] to the constructor; the
    header that decides between a reference and a copy is not among the
    sources), so it is passed to [update] and handed back rather than
    stored here.  [target_] is the
    wheel velocity stored by [set_target]; [measured_] the last encoder
    velocity read. *)
Record PIDMotorController : Type := mkChannel {
  input_filter_ : Filter;
  output_filter_ : Filter;
  min_output_ : R;
  target_ : R;
  measured_ : R
}.

(** Modelled from the spec: the constructor and the accessors of the
    missing class [PIDMotorController], section 4.4; a new channel has
    target and measurement at zero. *)
Definition PIDMotorController_new (input_filter output_filter : Filter)
    (min_output : R) : PIDMotorController :=
  mkChannel input_filter output_filter min_output 0 0.

Definition set_target (m : PIDMotorController) (velocity : R)
    : PIDMotorController :=
  mkChannel (input_filter_ m) (output_filter_ m) (min_output_ m)
            velocity (measured_ m).

Definition get_target_velocity (m : PIDMotorController) : R := target_ m.

Definition get_measured_velocity (m : PIDMotorController) : R := measured_ m.

(** Modelled from the spec: deadband compensation, section 4.4.  A
    non-zero filtered output whose magnitude is below the minimum is
    raised to the minimum with its sign kept; a zero output, or any output
    while the target is zero, passes unchanged. *)
Definition deadband (min_output target output : R) : R :=
  if Req_dec_T target 0 then output
  else if Req_dec_T output 0 then output
  else if Rlt_dec (Rabs output) min_output
       then (if Rlt_dec 0 output then min_output else - min_output)
       else output.

(** Modelled from the spec: the regulation half of the missing
    [PIDMotorController::update], section 4.4: raw encoder velocity ->
    input filter -> [PID.compute] against the target -> output filter.
    Returns the channel, the regulator and the filtered output. *)
Definition regulate (m : PIDMotorController) (pid : PIDController)
    (encoder_velocity dt : R) : PIDMotorController * PIDController * R :=
  let (input_filter', input) := Filters.update (input_filter_ m) encoder_velocity in
  let (pid', output) := compute pid (target_ m) input dt in
  let (output_filter', filtered) := Filters.update (output_filter_ m) output in
  (mkChannel input_filter' output_filter' (min_output_ m) (target_ m)
             encoder_velocity,
   pid', filtered).

(** Modelled from the spec: [update(dt)], section 4.4: regulation, then
    deadband compensation; the third component is the value sent to the
    actuation output. *)
Definition update (m : PIDMotorController) (pid : PIDController)
    (encoder_velocity dt : R) : PIDMotorController * PIDController * R :=
  match regulate m pid encoder_velocity dt with
  | (m', pid', filtered) =>
      (m', pid', deadband (min_output_ m) (target_ m) filtered)
  end.

(** Modelled from the spec: [MotorControllerManager], section 4.5: a fixed
    array of channels in wheel order. *)
Definition set_targets (ms : Quad PIDMotorController) (targets : Vector4d)
    : Quad PIDMotorController :=
  quad_zip set_target ms targets.

Definition get_measured_velocities (ms : Quad PIDMotorController) : Vector4d :=
  quad_map get_measured_velocity ms.

Definition get_set_velocities (ms : Quad PIDMotorController) : Vector4d :=
  quad_map get_target_velocity ms.

(** Modelled from the spec: [update(dt)] of the missing
    [MotorControllerManager], section 4.5: every channel in index order,
    each with its own regulator and its own encoder reading. *)
Definition update_all (ms : Quad PIDMotorController)
    (pids : Quad PIDController) (encoder_velocity : Vector4d) (dt : R)
    : Quad PIDMotorController * Quad PIDController * Vector4d :=
  match update (q0 ms) (q0 pids) (q0 encoder_velocity) dt,
        update (q1 ms) (q1 pids) (q1 encoder_velocity) dt,
        update (q2 ms) (q2 pids) (q2 encoder_velocity) dt,
        update (q3 ms) (q3 pids) (q3 encoder_velocity) dt with
  | (m0, p0, o0), (m1, p1, o1), (m2, p2, o2), (m3, p3, o3) =>
      (mkQuad m0 m1 m2 m3, mkQuad p0 p1 p2 p3, mkQuad o0 o1 o2 o3)
  end.

End Motor.

(* ================================================================= *)
(** * Velocity controller ([velocity_controller.hpp]) *)

Module Velocity.

Import Kinematics.

(** The two value members of [VelocityController]; the motor manager and
    the kinematics model are held by reference and live in the global
    state of [core.cpp]. *)
Record VelocityController : Type := mkVelocityController {
  latest_command_ : Vector3d;
  robot_velocity_ : Vector3d
}.

Definition VelocityController_new : VelocityController :=
  mkVelocityController Vector3d_Zero Vector3d_Zero.

(** Modelled from the spec: the member functions are declared in
    [velocity_controller.hpp] and their bodies are missing from the
    sources.  [set_latest_command] stores the command, overwriting the
    previous one (section 4.6). *)
Definition set_latest_command (vc : VelocityController)
    (latest_command : Vector3d) : VelocityController :=
  mkVelocityController latest_command (robot_velocity_ vc).

Definition get_robot_velocity (vc : VelocityController) : Vector3d :=
  robot_velocity_ vc.

(** Modelled from the spec: the body of [get_set_wheel_velocities] is
    missing from the sources; the targets the channels currently hold,
    through the motor manager (section 4.6). *)
Definition get_set_wheel_velocities (ms : Quad Motor.PIDMotorController)
    : Vector4d :=
  Motor.get_set_velocities ms.

(** Modelled from the spec: [update], section 4.6: inverse kinematics of
    the last command -> [set_targets] -> array update -> forward
    kinematics of the measured velocities, stored as the velocity
    estimate.  The fourth component is what went to the four drivers. *)
Definition update (vc : VelocityController) (kin : MecanumKinematics4W)
    (ms : Quad Motor.PIDMotorController) (pids : Quad PID.PIDController)
    (encoder_velocity : Vector4d) (dt : R)
    : VelocityController * Quad Motor.PIDMotorController
      * Quad PID.PIDController * Vector4d :=
  let targets := calculate_wheel_velocity kin (latest_command_ vc) in
  let ms1 := Motor.set_targets ms targets in
  match Motor.update_all ms1 pids encoder_velocity dt with
  | (ms2, pids2, outputs) =>
      let estimate :=
        calculate_robot_velocity kin (Motor.get_measured_velocities ms2) in
      (mkVelocityController (latest_command_ vc) estimate, ms2, pids2, outputs)
  end.

End Velocity.

(* ================================================================= *)
(** * [core.cpp] *)

Module Core.

Import Kinematics Filters PID Motor Velocity.

(** ** Configuration constants (lines 56-64, 100) *)

Definition base_kp : R := 0.105.
Definition base_ki : R := 0.125.
Definition modifier_ki_linear : R := 2.0.
Definition modifier_ki_rotational : R := 1.1.
Definition base_kd : R := 0.005.
Definition max_expected_sampling_time : R := 0.2.
Definition max_integral : R := 5.2.
Definition MIN_OUTPUT : R := 0.35.

(** ** Messages *)

(** [geometry_msgs/Vector3] and [geometry_msgs/Twist]. *)
Record Vector3 : Type := mkVector3 { x : R; y : R; z : R }.

Record Twist : Type := mkTwist { linear : Vector3; angular : Vector3 }.

(** [nav_msgs/Odometry], the fields the firmware writes: position x and
    y, orientation w and z, the planar twist and the two row-major 6 x 6
    covariance arrays. *)
Record Odometry : Type := mkOdometry {
  position_x : R;
  position_y : R;
  orientation_w : R;
  orientation_z : R;
  twist_linear_x : R;
  twist_linear_y : R;
  twist_angular_z : R;
  pose_covariance : list R;
  twist_covariance : list R
}.

(** [sensor_msgs/JointState]: the two data arrays of four cells. *)
Record JointState : Type := mkJointState {
  position : Vector4d;
  velocity : Vector4d
}.

(** The wanted joint-state message, of which the firmware touches the
    velocity sequence only.  [velocity_data] is the pointer
    [velocity.data]: [None] is the null pointer of the zero-initialised
    global, [Some] an allocated array of four cells. *)
Record WantedJointState : Type := mkWantedJointState {
  velocity_data : option Vector4d
}.

(** ** Global state *)

(** The globals of [core.cpp] that the control path reads or writes.
    [driver_M] is the duty cycle last handed to each motor driver. *)
Record State : Type := mkState {
  driver_M : Vector4d;
  controller_M : Quad PIDController;
  motor_controller_M : Quad PIDMotorController;
  kinematics : MecanumKinematics4W;
  robot_controller : VelocityController;
  cmd_vel_filter_x : Filter;
  cmd_vel_filter_y : Filter;
  cmd_vel_filter_rot : Filter;
  smoothed_cmd_vel : Vector3d;
  last_time : Z;
  pose : Vector3d;
  odom_msg : Odometry;
  joint_state_msg : JointState;
  wanted_joint_state_msg : WantedJointState
}.

(** Lines 66-73: the four regulators. *)
Definition controller_new : PIDController :=
  PIDController_new base_kp base_ki base_kd max_expected_sampling_time
                    max_integral.

(** Lines 80-113: the four channels, with pass-through filters on both
    signal paths. *)
Definition motor_controller_new : PIDMotorController :=
  PIDMotorController_new NoFilter NoFilter MIN_OUTPUT.

(** The state the static initialisers leave.  [WHEEL_RADIUS],
    [WHEEL_BASE] and [TRACK_WIDTH] come from [conf_hardware.h], which is
    not among the sources, and are parameters; the message buffers are
    whatever the zero-initialised globals hold until [setup] fills them,
    and the velocity array of the wanted joint-state message (line 137)
    is the null pointer. *)
Definition initial (WHEEL_RADIUS WHEEL_BASE TRACK_WIDTH : R) : State :=
  {| driver_M := mkQuad 0 0 0 0;
     controller_M := mkQuad controller_new controller_new
                            controller_new controller_new;
     motor_controller_M := mkQuad motor_controller_new motor_controller_new
                                  motor_controller_new motor_controller_new;
     kinematics := mkMecanum WHEEL_RADIUS WHEEL_BASE TRACK_WIDTH;
     robot_controller := VelocityController_new;
     cmd_vel_filter_x := MovingAverageFilter 2;
     cmd_vel_filter_y := MovingAverageFilter 2;
     cmd_vel_filter_rot := MovingAverageFilter 4;
     smoothed_cmd_vel := Vector3d_Zero;
     last_time := 0%Z;
     pose := Vector3d_Zero;
     odom_msg := mkOdometry 0 0 0 0 0 0 0 [] [];
     joint_state_msg := mkJointState (mkQuad 0 0 0 0) (mkQuad 0 0 0 0);
     wanted_joint_state_msg := mkWantedJointState None |}.

(** ** The velocity-command callback (lines 177-209) *)

(** Lines 186-206: the integral gain chosen for a smoothed command.
    [abs] is the absolute value on [double]s. *)
Definition select_ki (cmd : Vector3d) : R :=
  if Rgtb (Rabs (v0 cmd)) 0.5 || Rgtb (Rabs (v1 cmd)) 0.5
  then base_ki * modifier_ki_linear
  else if Rgtb (Rabs (v2 cmd)) 1.0
  then base_ki * modifier_ki_rotational
  else base_ki.

Definition cmd_vel_subscription_callback (s : State) (msg : Twist) : State :=
  let (filter_x, sx) := Filters.update (cmd_vel_filter_x s) (x (linear msg)) in
  let (filter_y, sy) := Filters.update (cmd_vel_filter_y s) (y (linear msg)) in
  let (filter_rot, srot) :=
    Filters.update (cmd_vel_filter_rot s) (z (angular msg)) in
  let smoothed := mkVector3d sx sy srot in
  let new_ki := select_ki smoothed in
  {| driver_M := driver_M s;
     controller_M := quad_map (fun c => set_ki c new_ki) (controller_M s);
     motor_controller_M := motor_controller_M s;
     kinematics := kinematics s;
     robot_controller := set_latest_command (robot_controller s) smoothed;
     cmd_vel_filter_x := filter_x;
     cmd_vel_filter_y := filter_y;
     cmd_vel_filter_rot := filter_rot;
     smoothed_cmd_vel := smoothed;
     last_time := last_time s;
     pose := pose s;
     odom_msg := odom_msg s;
     joint_state_msg := joint_state_msg s;
     wanted_joint_state_msg := wanted_joint_state_msg s |}.

(** The smoothed command of a callback: the three filter outputs. *)
Definition smooth (s : State) (msg : Twist) : Vector3d :=
  mkVector3d (snd (Filters.update (cmd_vel_filter_x s) (x (linear msg))))
             (snd (Filters.update (cmd_vel_filter_y s) (y (linear msg))))
             (snd (Filters.update (cmd_vel_filter_rot s) (z (angular msg)))).

(** The raw command of a message, as the callback reads it. *)
Definition raw_command (msg : Twist) : Vector3d :=
  mkVector3d (x (linear msg)) (y (linear msg)) (z (angular msg)).

(** A planar command message. *)
Definition twist_of (vx vy w : R) : Twist :=
  mkTwist (mkVector3 vx vy 0) (mkVector3 0 0 w).

(** The state after a series of command messages, oldest first. *)
Definition receive (s : State) (msgs : list Twist) : State :=
  fold_left cmd_vel_subscription_callback msgs s.

(** ** [setup]: the covariance arrays (lines 298-316) *)

(** [a[i] = v] on an array held as a list; the cells written by [setup]
    all lie inside the 36-cell buffer. *)
Fixpoint store (a : list R) (i : nat) (v : R) : list R :=
  match a, i with
  | [], _ => []
  | _ :: t, O => v :: t
  | h :: t, S j => h :: store t j v
  end.

(** Lines 301-307: [for (int i = 0; i < 36; i++) if (i % 7 != 0)
    temp_covariance[i] = 0.0;]. *)
Definition clear_off_diagonal (temp_covariance : list R) : list R :=
  fold_left
    (fun a i => if negb (Nat.eqb (i mod 7) 0) then store a i 0.0 else a)
    (seq 0 36) temp_covariance.

(** Lines 298-314: the buffer comes from [malloc], so its first contents
    are arbitrary; the loop and the six assignments follow. *)
Definition fill_covariance (malloc_contents : list R) : list R :=
  let t := clear_off_diagonal malloc_contents in
  let t := store t (0 + 0) 0.8 in
  let t := store t (6 + 1) 0.8 in
  let t := store t (12 + 2) 0.8 in
  let t := store t (18 + 3) 0 in
  let t := store t (24 + 4) 0 in
  let t := store t (30 + 5) 0.8 in
  t.

(** What [malloc] hands to [setup]: the 36 cells of [temp_covariance] and
    the four cells each of the joint-state position and velocity arrays. *)
Record Heap : Type := mkHeap {
  temp_covariance_cells : list R;
  position_cells : Vector4d;
  velocity_cells : Vector4d
}.

(** [setup], as far as the control state goes: both covariance arrays are
    copied from the one buffer (lines 315-316) and the joint-state arrays
    are allocated (lines 333-339). *)
Definition setup (s : State) (h : Heap) : State :=
  let temp_covariance := fill_covariance (temp_covariance_cells h) in
  let o := odom_msg s in
  {| driver_M := driver_M s;
     controller_M := controller_M s;
     motor_controller_M := motor_controller_M s;
     kinematics := kinematics s;
     robot_controller := robot_controller s;
     cmd_vel_filter_x := cmd_vel_filter_x s;
     cmd_vel_filter_y := cmd_vel_filter_y s;
     cmd_vel_filter_rot := cmd_vel_filter_rot s;
     smoothed_cmd_vel := smoothed_cmd_vel s;
     last_time := last_time s;
     pose := pose s;
     odom_msg :=
       mkOdometry (position_x o) (position_y o) (orientation_w o)
                  (orientation_z o) (twist_linear_x o) (twist_linear_y o)
                  (twist_angular_z o) temp_covariance temp_covariance;
     joint_state_msg := mkJointState (position_cells h) (velocity_cells h);
     wanted_joint_state_msg := wanted_joint_state_msg s |}.

(** Row-major index of entry (row, column) of a 6 x 6 covariance. *)
Definition entry (row col : nat) : nat := (6 * row + col)%nat.

(** The axes of a covariance block, in message order. *)
Inductive Axis : Type := AxisX | AxisY | AxisZ | RotX | RotY | RotZ.

Definition axis_index (a : Axis) : nat :=
  match a with
  | AxisX => 0 | AxisY => 1 | AxisZ => 2
  | RotX => 3 | RotY => 4 | RotZ => 5
  end%nat.

(** The covariance read at (row axis, column axis). *)
Definition covariance_at (cov : list R) (a b : Axis) : R :=
  nth (entry (axis_index a) (axis_index b)) cov 0.

(** The planar robot observes x, y and yaw. *)
Definition observed (a : Axis) : bool :=
  match a with
  | AxisX | AxisY | RotZ => true
  | _ => false
  end.

(** ** [loop] (lines 347-499) *)

(** [atan2(y, x)] of the C library on the reals: the angle of the point
    [(x, y)], in (-PI, PI], and 0 at the origin. *)
Definition atan2 (y x : R) : R :=
  if Rlt_dec 0 x then atan (y / x)
  else if Rlt_dec x 0 then
    (if Rle_dec 0 y then atan (y / x) + PI else atan (y / x) - PI)
  else if Rlt_dec 0 y then PI / 2
  else if Rlt_dec y 0 then - (PI / 2)
  else 0.

(** [unsigned long] is 32 bits wide on the target. *)
Definition ULONG_MODULUS : Z := (2 ^ 32)%Z.

(** Line 421: [(now - last_time) / 1000.0], the subtraction on
    [unsigned long]. *)
Definition elapsed (now last_time : Z) : R :=
  IZR ((now - last_time) mod ULONG_MODULUS) / 1000.0.

(** Lines 424-429: one step of the dead-reckoning integration.  Both
    position updates read the heading before line 428 changes it. *)
Definition integrate_pose (pose robot_velocity : Vector3d) (dt : R)
    : Vector3d :=
  let pose0 := v0 pose + (v0 robot_velocity * cos (v2 pose) * dt -
                          v1 robot_velocity * sin (v2 pose) * dt) in
  let pose1 := v1 pose + (v0 robot_velocity * sin (v2 pose) * dt +
                          v1 robot_velocity * cos (v2 pose) * dt) in
  let pose2 := v2 pose + v2 robot_velocity * dt in
  let pose2 := atan2 (sin pose2) (cos pose2) in
  mkVector3d pose0 pose1 pose2.

(** Lines 464-475: the joint-state arrays from the wheel velocities. *)
Definition integrate_joints (js : JointState) (wheel_velocities : Vector4d)
    (dt : R) : JointState :=
  mkJointState
    (mkQuad (q0 (position js) + q0 wheel_velocities * dt)
            (q1 (position js) + q1 wheel_velocities * dt)
            (q2 (position js) + q2 wheel_velocities * dt)
            (q3 (position js) + q3 wheel_velocities * dt))
    (mkQuad (q0 wheel_velocities) (q1 wheel_velocities)
            (q2 wheel_velocities) (q3 wheel_velocities)).

(** What one pass of [loop] takes from outside: the command message the
    executor delivers, if one is pending (line 391); the four encoder
    velocities and the sampling interval of the control update (line
    404); the [millis()] reading of line 420. *)
Record Inputs : Type := mkInputs {
  incoming : option Twist;
  encoder_velocity : Vector4d;
  control_dt : R;
  now : Z
}.

(** The state when the executor has run (line 391). *)
Definition spin_some (s : State) (i : Inputs) : State :=
  match incoming i with
  | Some msg => cmd_vel_subscription_callback s msg
  | None => s
  end.


(** Lines 487-490: the four stores through [velocity.data].  Through the
    null pointer no cell is stored. *)
Definition store_wanted (w : WantedJointState) (v : Vector4d)
    : WantedJointState :=
  match velocity_data w with
  | Some _ => mkWantedJointState (Some v)
  | None => w
  end.


(** One pass of [loop]: the state when the pass returns or, when line 487
    stores through the null pointer, the state the pass has built by
    then, the odometry and joint-state messages being published before,
    at lines 447 and 480; [loop_outcome] tells the two apart.  Time
    synchronisation, message stamps and the diagnostic strings are left
    out: they read no control state and write none. *)
Definition loop (s0 : State) (i : Inputs) : State :=
  let s := spin_some s0 i in
  match Velocity.update (robot_controller s) (kinematics s)
          (motor_controller_M s) (controller_M s)
          (encoder_velocity i) (control_dt i) with
  | (vc, ms, pids, outputs) =>
      let robot_velocity := get_robot_velocity vc in
      let dt := elapsed (now i) (last_time s) in
      let pose' := integrate_pose (pose s) robot_velocity dt in
      let o := odom_msg s in
      let wheel_velocities :=
        calculate_wheel_velocity (kinematics s) robot_velocity in
      {| driver_M := outputs;
         controller_M := pids;
         motor_controller_M := ms;
         kinematics := kinematics s;
         robot_controller := vc;
         cmd_vel_filter_x := cmd_vel_filter_x s;
         cmd_vel_filter_y := cmd_vel_filter_y s;
         cmd_vel_filter_rot := cmd_vel_filter_rot s;
         smoothed_cmd_vel := smoothed_cmd_vel s;
         last_time := (now i mod ULONG_MODULUS)%Z;
         pose := pose';
         odom_msg :=
           mkOdometry (v0 pose') (v1 pose')
                      (cos (v2 pose' / 2.0)) (sin (v2 pose' / 2.0))
                      (v0 robot_velocity) (v1 robot_velocity)
                      (v2 robot_velocity)
                      (pose_covariance o) (twist_covariance o);
         joint_state_msg :=
           integrate_joints (joint_state_msg s) wheel_velocities dt;
         wanted_joint_state_msg :=
           store_wanted (wanted_joint_state_msg s)
                        (get_set_wheel_velocities ms) |}
  end.

(** The states of a series of passes of [loop], one after the other,
    each pass taken as far as [loop] gives it; what a store through the
    null pointer does to the program after that point is not modelled. *)
Definition run (s : State) (inputs : list Inputs) : State :=
  fold_left loop inputs s.

(** The velocity estimate one pass works with: forward kinematics of the
    encoder velocities read in that pass. *)
Definition estimate (s : State) (i : Inputs) : Vector3d :=
  calculate_robot_velocity (kinematics s) (encoder_velocity i).

(** The measurements projected on the kinematically consistent wheel
    velocity sets: inverse kinematics of the estimate. *)
Definition projected (s : State) (i : Inputs) : Vector4d :=
  calculate_wheel_velocity (kinematics s) (estimate s i).

(** The wheel travel a series of passes adds up: in each pass the
    projected velocity of each wheel times the interval since the pass
    before. *)
Fixpoint travel (kin : MecanumKinematics4W) (last_time : Z)
    (inputs : list Inputs) : Vector4d :=
  match inputs with
  | [] => mkQuad 0 0 0 0
  | i :: rest =>
      let w := calculate_wheel_velocity kin
                 (calculate_robot_velocity kin (encoder_velocity i)) in
      let dt := elapsed (now i) last_time in
      quad_zip Rplus (quad_map (fun v => v * dt) w)
               (travel kin (now i mod ULONG_MODULUS)%Z rest)
  end.

(** The dead-reckoning integration under a constant velocity estimate. *)
Definition integrate_steps (n : nat) (robot_velocity : Vector3d) (dt : R)
    (pose : Vector3d) : Vector3d :=
  Nat.iter n (fun p => integrate_pose p robot_velocity dt) pose.

End Core.

(* ================================================================= *)
(** * [core.cpp]: initialisation with feedback (lines 228-245) *)

Module Bootstrap.

(** [rcl_ret_t] is an integer return code; [RCL_RET_OK] is 0 in
    [rcl/types.h], which is not among the sources. *)
Definition rcl_ret_t : Type := Z.

Definition RCL_RET_OK : rcl_ret_t := 0%Z.

(** What the retry loop does to the board: writes to [LED_BUILTIN] and
    delays, in order. *)
Inductive Effect : Type :=
  | digitalWrite (high : bool)
  | delay (ms : Z).

(** Lines 239-242: one flash of the LED. *)
Definition flash : list Effect :=
  [digitalWrite true; delay 100; digitalWrite false; delay 100].

(** [performInitializationWithFeedback]: [while (true)] around one call of
    [initFunction].  The function object is stateful, so it is given as
    the results of its successive calls, [initFunction k] being what call
    number [k] returns; [calls] counts the calls made so far.  The loop has
    no bound of its own: [fuel] bounds the number of iterations looked at,
    and [None] means the loop is still running when it is used up. *)
Fixpoint performInitializationWithFeedback (fuel : nat)
    (initFunction : nat -> rcl_ret_t) (calls : nat)
    : option (bool * list Effect) :=
  match fuel with
  | O => None
  | S fuel' =>
      if Z.eqb (initFunction calls) RCL_RET_OK then Some (true, [])
      else
        match performInitializationWithFeedback fuel' initFunction
                (S calls) with
        | Some (result, effects) => Some (result, flash ++ effects)
        | None => None
        end
  end.

(** The total delay in a series of effects, in milliseconds. *)
Fixpoint delayed (effects : list Effect) : Z :=
  match effects with
  | [] => 0
  | delay ms :: rest => ms + delayed rest
  | digitalWrite _ :: rest => delayed rest
  end%Z.

(** The level the LED is left at, given the level before. *)
Definition led_after (before : bool) (effects : list Effect) : bool :=
  fold_left (fun level e =>
               match e with digitalWrite high => high | delay _ => level end)
            effects before.

End Bootstrap.

(* ================================================================= *)
(** * [core.cpp]: notions for reasoning about a run of [loop] *)

Module Drive.

Import Kinematics PID Motor Velocity Core.

(** The dead-reckoning integration of lines 424-429 along a series of
    (velocity estimate, dt) pairs, oldest first. *)
Definition integrate_path (pose : Vector3d) (steps : list (Vector3d * R))
    : Vector3d :=
  fold_left (fun p step => integrate_pose p (fst step) (snd step)) steps pose.

(** The angle turned along a series of steps, not wrapped. *)
Definition turned (steps : list (Vector3d * R)) : R :=
  fold_right (fun step acc => v2 (fst step) * snd step + acc) 0 steps.

(** The yaw a planar quaternion (w, 0, 0, z) stands for. *)
Definition yaw_of (w z : R) : R := 2 * atan2 z w.

(** A pass on which the executor delivers no message. *)
Definition quiet (i : Inputs) : Prop := incoming i = None.

(** The messages a series of passes delivers, oldest first. *)
Definition delivered (inputs : list Inputs) : list Twist :=
  flat_map (fun i => match incoming i with Some msg => [msg] | None => [] end)
           inputs.

(** The target each channel holds and the output last handed to its
    driver, side by side. *)
Definition target_and_output (s : State) : Quad (R * R) :=
  quad_zip pair (Motor.get_set_velocities (motor_controller_M s))
           (driver_M s).

(** The command path of the state: the tracked command, the three
    command filters and the smoothed command. *)
Definition command_path (s : State)
    : Vector3d * Filters.Filter * Filters.Filter * Filters.Filter * Vector3d :=
  (latest_command_ (robot_controller s), cmd_vel_filter_x s,
   cmd_vel_filter_y s, cmd_vel_filter_rot s, smoothed_cmd_vel s).

(** Every channel has the minimum output of line 100. *)
Definition configured (s : State) : Prop :=
  quad_all (fun m => min_output_ m = MIN_OUTPUT) (motor_controller_M s).

(** Every regulator has a non-negative limit and its accumulator inside
    the clamp. *)
Definition regulators_clamped (s : State) : Prop :=
  quad_all (fun c => 0 <= PID.max_integral c /\ integral_clamped c)
           (controller_M s).

(** The combination of wheel positions that no consistent wheel velocity
    set can change. *)
Definition slack (w : Vector4d) : R := q0 w + q1 w - q2 w - q3 w.

End Drive.

(* ================================================================= *)
(** * Kinematics: inverse, forward, least squares *)

Section KinematicsFacts.

Import Kinematics.

Lemma vector3d_eq (a b c a' b' c' : R) :
  a = a' -> b = b' -> c = c' -> mkVector3d a b c = mkVector3d a' b' c'.
Proof. intros -> -> ->. reflexivity. Qed.

Lemma quad_eq {A : Type} (a b c d a' b' c' d' : A) :
  a = a' -> b = b' -> c = c' -> d = d' ->
  mkQuad a b c d = mkQuad a' b' c' d'.
Proof. intros -> -> -> ->. reflexivity. Qed.

Lemma norm2_nonneg (w : Vector4d) : 0 <= norm2 w.
Proof.
  unfold norm2.
  pose proof (Rle_0_sqr (q0 w)). pose proof (Rle_0_sqr (q1 w)).
  pose proof (Rle_0_sqr (q2 w)). pose proof (Rle_0_sqr (q3 w)).
  unfold Rsqr in *. lra.
Qed.

(** The wheel velocities of any body velocity are consistent. *)
Lemma wheel_velocity_consistent (kin : MecanumKinematics4W) (v : Vector3d) :
  consistent (calculate_wheel_velocity kin v).
Proof.
  unfold consistent, calculate_wheel_velocity; simpl.
  unfold Rdiv. ring.
Qed.

Lemma forward_inverse (kin : MecanumKinematics4W) (v : Vector3d) :
  valid_geometry kin ->
  calculate_robot_velocity kin (calculate_wheel_velocity kin v) = v.
Proof.
  intros [Hr Hk]. destruct v as [vx vy w].
  unfold calculate_robot_velocity, calculate_wheel_velocity; simpl.
  apply vector3d_eq; field; auto.
Qed.

(** Pythagoras for the residuals: the residual of any candidate [v] is the
    residual of the forward estimate plus the wheel velocities of the
    difference, and the two are orthogonal. *)
Lemma residual_split (kin : MecanumKinematics4W) (w : Vector4d)
    (v : Vector3d) :
  valid_geometry kin ->
  norm2 (residual kin v w) =
  norm2 (residual kin (calculate_robot_velocity kin w) w) +
  norm2 (quad_zip Rminus (calculate_wheel_velocity kin v)
           (calculate_wheel_velocity kin (calculate_robot_velocity kin w))).
Proof.
  intros [Hr Hk]. destruct v as [vx vy om], w as [a b c d].
  unfold norm2, residual, quad_zip, calculate_wheel_velocity,
    calculate_robot_velocity; simpl.
  field; auto.
Qed.

Lemma forward_least_squares (kin : MecanumKinematics4W) (w : Vector4d)
    (v : Vector3d) :
  valid_geometry kin ->
  norm2 (residual kin (calculate_robot_velocity kin w) w) <=
  norm2 (residual kin v w).
Proof.
  intros H. rewrite (residual_split kin w v H).
  pose proof (norm2_nonneg
    (quad_zip Rminus (calculate_wheel_velocity kin v)
       (calculate_wheel_velocity kin (calculate_robot_velocity kin w)))).
  lra.
Qed.

(** On a consistent wheel velocity set, inverse after forward changes
    nothing. *)
Lemma inverse_forward (kin : MecanumKinematics4W) (w : Vector4d) :
  valid_geometry kin -> consistent w ->
  calculate_wheel_velocity kin (calculate_robot_velocity kin w) = w.
Proof.
  intros [Hr Hk] Hc. destruct w as [a b c d].
  unfold consistent in Hc; simpl in Hc.
  assert (Hd : d = a + b - c) by lra. subst d.
  unfold calculate_robot_velocity, calculate_wheel_velocity; simpl.
  apply quad_eq; field; auto.
Qed.

(** C1: the 4-wheel mecanum inverse kinematics returns
    [(vx - vy - k w)/r, (vx + vy + k w)/r, (vx + vy - k w)/r,
    (vx - vy + k w)/r] in the order front-left, front-right, back-left,
    back-right, with [k = a + b]; with r = 0.05, a = b = 0.1 the command
    (0.5, 0, 0) gives 10.0 rad/s on all four wheels. *)
Theorem mecanum_inverse_kinematics :
  (forall r a b vx vy w : R,
     calculate_wheel_velocity (mkMecanum r a b) (mkVector3d vx vy w) =
     mkQuad ((vx - vy - (a + b) * w) / r) ((vx + vy + (a + b) * w) / r)
            ((vx + vy - (a + b) * w) / r) ((vx - vy + (a + b) * w) / r)) /\
  calculate_wheel_velocity (mkMecanum 0.05 0.1 0.1) (mkVector3d 0.5 0 0) =
  mkQuad 10.0 10.0 10.0 10.0.
Proof.
  split.
  - intros. reflexivity.
  - unfold calculate_wheel_velocity, geometry_factor; simpl.
    apply quad_eq; lra.
Qed.

(** C2: forward kinematics after inverse kinematics returns the body
    velocity it started from, and forward kinematics is the least-squares
    left inverse of the inverse map: no body velocity fits a wheel
    velocity set better than the forward estimate. *)
Theorem forward_inverse_identity (kin : MecanumKinematics4W) :
  valid_geometry kin ->
  (forall v : Vector3d,
     calculate_robot_velocity kin (calculate_wheel_velocity kin v) = v) /\
  (forall (w : Vector4d) (v : Vector3d),
     norm2 (residual kin (calculate_robot_velocity kin w) w) <=
     norm2 (residual kin v w)).
Proof.
  intros H. split.
  - intros v. apply forward_inverse; assumption.
  - intros w v. apply forward_least_squares; assumption.
Qed.

Lemma forward_inverse_identity_witness :
  valid_geometry (mkMecanum 0.05 0.1 0.1) /\
  calculate_robot_velocity (mkMecanum 0.05 0.1 0.1)
    (calculate_wheel_velocity (mkMecanum 0.05 0.1 0.1)
       (mkVector3d 0.5 0 0)) = mkVector3d 0.5 0 0.
Proof.
  assert (H : valid_geometry (mkMecanum 0.05 0.1 0.1)).
  { unfold valid_geometry, geometry_factor; simpl. split; lra. }
  split.
  - exact H.
  - exact (proj1 (forward_inverse_identity (mkMecanum 0.05 0.1 0.1) H)
                 (mkVector3d 0.5 0 0)).
Defined.

End KinematicsFacts.

(* ================================================================= *)
(** * PID regulator: anti-windup and the sampling-interval guard *)

Section PIDFacts.

Import PID.

Lemma clamp_bounds (x m : R) : 0 <= m -> - m <= clamp x (- m) m <= m.
Proof.
  intros Hm. unfold clamp.
  destruct (Rlt_dec x (- m)); [lra |].
  destruct (Rlt_dec m x); lra.
Qed.

Lemma degenerate_dt_true (c : PIDController) (dt : R) :
  degenerate_dt c dt = true <->
  dt <= 0 \/ max_expected_sampling_time c < dt.
Proof.
  unfold degenerate_dt.
  destruct (Rle_dec dt 0) as [H0 | H0].
  - split; auto.
  - destruct (Rlt_dec (max_expected_sampling_time c) dt) as [H1 | H1].
    + split; auto.
    + split; [discriminate | intros [H | H]; contradiction].
Qed.

Lemma degenerate_dt_false (c : PIDController) (dt : R) :
  degenerate_dt c dt = false <->
  0 < dt <= max_expected_sampling_time c.
Proof.
  unfold degenerate_dt.
  destruct (Rle_dec dt 0) as [H0 | H0].
  - split; [discriminate | lra].
  - destruct (Rlt_dec (max_expected_sampling_time c) dt) as [H1 | H1].
    + split; [discriminate | lra].
    + split; [lra | reflexivity].
Qed.

(** [compute] changes neither the gains nor the limits. *)
Lemma compute_max_integral (c : PIDController) (setpoint measured dt : R) :
  max_integral (fst (compute c setpoint measured dt)) = max_integral c.
Proof.
  unfold compute. destruct (degenerate_dt c dt); reflexivity.
Qed.

Lemma call_max_integral (c : PIDController) (e : Call) :
  max_integral (call c e) = max_integral c.
Proof.
  destruct e; simpl; [apply compute_max_integral | reflexivity].
Qed.

Lemma run_max_integral (calls : list Call) (c : PIDController) :
  max_integral (run c calls) = max_integral c.
Proof.
  unfold run. revert c. induction calls as [| e calls IH]; intros c; simpl.
  - reflexivity.
  - rewrite IH. apply call_max_integral.
Qed.

(** One [compute] keeps the accumulator inside the clamp. *)
Lemma compute_integral_clamped (c : PIDController)
    (setpoint measured dt : R) :
  0 <= max_integral c -> integral_clamped c ->
  integral_clamped (fst (compute c setpoint measured dt)).
Proof.
  intros Hm Hc. unfold compute.
  destruct (degenerate_dt c dt); simpl.
  - exact Hc.
  - unfold integral_clamped; simpl. apply clamp_bounds. exact Hm.
Qed.

Lemma call_integral_clamped (c : PIDController) (e : Call) :
  0 <= max_integral c -> integral_clamped c -> integral_clamped (call c e).
Proof.
  intros Hm Hc. destruct e; simpl.
  - apply compute_integral_clamped; assumption.
  - exact Hc.
Qed.

Lemma run_integral_clamped (calls : list Call) (c : PIDController) :
  0 <= max_integral c -> integral_clamped c ->
  integral_clamped (run c calls).
Proof.
  unfold run. revert c.
  induction calls as [| e calls IH]; intros c Hm Hc; simpl.
  - exact Hc.
  - apply IH.
    + rewrite call_max_integral. exact Hm.
    + apply call_integral_clamped; assumption.
Qed.

Lemma integral_clamped_abs (c : PIDController) :
  integral_clamped c -> Rabs (integral c) <= max_integral c.
Proof.
  unfold integral_clamped. intros [H1 H2].
  apply Rabs_le. split; assumption.
Qed.

(** A new regulator starts inside the clamp. *)
Lemma new_integral_clamped (p i d t m : R) :
  0 <= m -> integral_clamped (PIDController_new p i d t m).
Proof.
  intros Hm. unfold integral_clamped; simpl. lra.
Qed.

(** C5: when [dt] is zero, negative, or above
    [max_expected_sampling_time], [compute] leaves the regulator as it
    was (accumulator and previous error included) and returns the
    proportional term [kp * (setpoint - measured)]. *)
Theorem degenerate_dt_proportional_only (c : PIDController)
    (setpoint measured dt : R) :
  dt <= 0 \/ max_expected_sampling_time c < dt ->
  compute c setpoint measured dt = (c, kp c * (setpoint - measured)) /\
  integral (fst (compute c setpoint measured dt)) = integral c /\
  previous_error (fst (compute c setpoint measured dt)) = previous_error c.
Proof.
  intros H. apply degenerate_dt_true in H.
  unfold compute. rewrite H. simpl. auto.
Qed.

Lemma degenerate_dt_proportional_only_witness :
  compute Core.controller_new 3 1 0 =
  (Core.controller_new, kp Core.controller_new * (3 - 1)).
Proof.
  assert (H : 0 <= 0 \/ max_expected_sampling_time Core.controller_new < 0).
  { left. lra. }
  exact (proj1 (degenerate_dt_proportional_only Core.controller_new 3 1 0 H)).
Defined.

End PIDFacts.

(* ================================================================= *)
(** * Motor channel: deadband compensation *)

Section MotorFacts.

Import PID Filters Motor.

(** [update] is [regulate] followed by the deadband. *)
Lemma update_regulate (m : PIDMotorController) (pid : PIDController)
    (encoder_velocity dt : R) :
  snd (update m pid encoder_velocity dt) =
  deadband (min_output_ m) (target_ m)
           (snd (regulate m pid encoder_velocity dt)).
Proof.
  unfold update.
  destruct (regulate m pid encoder_velocity dt) as [[m' pid'] filtered].
  reflexivity.
Qed.

(** What leaves the deadband is zero or at least the minimum. *)
Lemma deadband_floor (min_output target output : R) :
  target <> 0 ->
  deadband min_output target output = 0 \/
  min_output <= Rabs (deadband min_output target output).
Proof.
  intros Ht. unfold deadband.
  destruct (Req_dec_T target 0) as [E | _]; [contradiction |].
  destruct (Req_dec_T output 0) as [E | Hn]; [left; exact E |].
  right. destruct (Rlt_dec (Rabs output) min_output) as [Hlt | Hge].
  - assert (Hpos : 0 < min_output).
    { pose proof (Rabs_pos output). lra. }
    destruct (Rlt_dec 0 output).
    + rewrite Rabs_pos_eq; lra.
    + rewrite Rabs_Ropp, Rabs_pos_eq; lra.
  - lra.
Qed.

(** A bumped output has the magnitude of the minimum and the sign of the
    filtered output. *)
Lemma deadband_bump (min_output target output : R) :
  target <> 0 -> output <> 0 -> Rabs output < min_output ->
  Rabs (deadband min_output target output) = min_output /\
  0 < deadband min_output target output * output.
Proof.
  intros Ht Ho Hlt. unfold deadband.
  destruct (Req_dec_T target 0) as [E | _]; [contradiction |].
  destruct (Req_dec_T output 0) as [E | _]; [contradiction |].
  destruct (Rlt_dec (Rabs output) min_output) as [_ | Hge]; [| contradiction].
  assert (Hpos : 0 < min_output).
  { pose proof (Rabs_pos output). lra. }
  destruct (Rlt_dec 0 output) as [Hp | Hnp].
  - split; [rewrite Rabs_pos_eq; lra | nra].
  - split; [rewrite Rabs_Ropp, Rabs_pos_eq; lra | nra].
Qed.

(** No floor on a zero output or under a zero target. *)
Lemma deadband_pass (min_output target output : R) :
  output = 0 \/ target = 0 ->
  deadband min_output target output = output.
Proof.
  intros H. unfold deadband.
  destruct (Req_dec_T target 0) as [_ | Ht]; [reflexivity |].
  destruct (Req_dec_T output 0) as [_ | Ho]; [reflexivity |].
  destruct H; contradiction.
Qed.

(** An output already at or above the minimum passes unchanged. *)
Lemma deadband_keep (min_output target output : R) :
  min_output <= Rabs output ->
  deadband min_output target output = output.
Proof.
  intros H. unfold deadband.
  destruct (Req_dec_T target 0); [reflexivity |].
  destruct (Req_dec_T output 0); [reflexivity |].
  destruct (Rlt_dec (Rabs output) min_output); [lra | reflexivity].
Qed.

(** C3: with a nonzero target, the output a motor channel's [update]
    sends is zero or at least [min_output] in magnitude, whatever was
    measured; an output bumped up to the minimum keeps the sign of the
    filtered output; a zero filtered output, or a zero target, gets no
    floor.  The channels of [core.cpp] have [min_output] = 0.35. *)
Theorem deadband_enforcement (m : PIDMotorController) (pid : PIDController)
    (encoder_velocity dt : R) :
  let filtered := snd (regulate m pid encoder_velocity dt) in
  let output := snd (update m pid encoder_velocity dt) in
  (target_ m <> 0 -> output = 0 \/ min_output_ m <= Rabs output) /\
  (target_ m <> 0 -> ~ (0 < Rabs output < min_output_ m)) /\
  (target_ m <> 0 -> filtered <> 0 -> Rabs filtered < min_output_ m ->
   Rabs output = min_output_ m /\ 0 < output * filtered) /\
  (filtered = 0 \/ target_ m = 0 -> output = filtered) /\
  min_output_ Core.motor_controller_new = 0.35.
Proof.
  intros filtered output. subst filtered output.
  rewrite update_regulate.
  set (f := snd (regulate m pid encoder_velocity dt)).
  split; [| split; [| split; [| split]]].
  - intros Ht. apply deadband_floor. exact Ht.
  - intros Ht [H1 H2].
    destruct (deadband_floor (min_output_ m) (target_ m) f Ht) as [E | E].
    + rewrite E, Rabs_R0 in H1. lra.
    + lra.
  - intros Ht Hf Hlt. apply deadband_bump; assumption.
  - intros H. apply deadband_pass. exact H.
  - reflexivity.
Qed.

Lemma deadband_enforcement_witness :
  snd (update (set_target Core.motor_controller_new 1) Core.controller_new
              0 0.1) = 0 \/
  min_output_ (set_target Core.motor_controller_new 1) <=
  Rabs (snd (update (set_target Core.motor_controller_new 1)
                    Core.controller_new 0 0.1)).
Proof.
  assert (Ht : target_ (set_target Core.motor_controller_new 1) <> 0).
  { simpl. lra. }
  exact (proj1 (deadband_enforcement
                  (set_target Core.motor_controller_new 1)
                  Core.controller_new 0 0.1) Ht).
Defined.

End MotorFacts.

(* ================================================================= *)
(** * The command callback: smoothing and ki adaptation *)

Section CallbackFacts.

Import Kinematics Filters PID Motor Velocity Core.

Lemma Rgtb_true (a b : R) : Rgtb a b = true <-> a > b.
Proof.
  unfold Rgtb. destruct (Rlt_dec b a); split; intros H;
    try reflexivity; try discriminate; try assumption.
  unfold Rgt in H. contradiction.
Qed.

Lemma Rgtb_false (a b : R) : Rgtb a b = false <-> ~ a > b.
Proof.
  unfold Rgtb. destruct (Rlt_dec b a); split; intros H;
    try reflexivity; try discriminate; try assumption.
  exfalso. apply H. assumption.
Qed.

Lemma select_ki_linear (cmd : Vector3d) :
  Rabs (v0 cmd) > 0.5 \/ Rabs (v1 cmd) > 0.5 ->
  select_ki cmd = base_ki * modifier_ki_linear.
Proof.
  intros H. unfold select_ki.
  destruct H as [H | H]; apply Rgtb_true in H; rewrite H.
  - reflexivity.
  - rewrite orb_true_r. reflexivity.
Qed.

Lemma select_ki_rotational (cmd : Vector3d) :
  ~ (Rabs (v0 cmd) > 0.5 \/ Rabs (v1 cmd) > 0.5) ->
  Rabs (v2 cmd) > 1.0 ->
  select_ki cmd = base_ki * modifier_ki_rotational.
Proof.
  intros Hl Hr. unfold select_ki.
  assert (H0 : Rgtb (Rabs (v0 cmd)) 0.5 = false).
  { apply Rgtb_false. intros H. apply Hl. left. exact H. }
  assert (H1 : Rgtb (Rabs (v1 cmd)) 0.5 = false).
  { apply Rgtb_false. intros H. apply Hl. right. exact H. }
  apply Rgtb_true in Hr. rewrite H0, H1, Hr. reflexivity.
Qed.

Lemma select_ki_base (cmd : Vector3d) :
  ~ (Rabs (v0 cmd) > 0.5 \/ Rabs (v1 cmd) > 0.5) ->
  ~ Rabs (v2 cmd) > 1.0 ->
  select_ki cmd = base_ki.
Proof.
  intros Hl Hr. unfold select_ki.
  assert (H0 : Rgtb (Rabs (v0 cmd)) 0.5 = false).
  { apply Rgtb_false. intros H. apply Hl. left. exact H. }
  assert (H1 : Rgtb (Rabs (v1 cmd)) 0.5 = false).
  { apply Rgtb_false. intros H. apply Hl. right. exact H. }
  apply Rgtb_false in Hr. rewrite H0, H1, Hr. reflexivity.
Qed.

Lemma callback_smoothed (s : State) (msg : Twist) :
  smoothed_cmd_vel (cmd_vel_subscription_callback s msg) = smooth s msg.
Proof.
  unfold cmd_vel_subscription_callback, smooth.
  destruct (Filters.update (cmd_vel_filter_x s) _) as [fx sx].
  destruct (Filters.update (cmd_vel_filter_y s) _) as [fy sy].
  destruct (Filters.update (cmd_vel_filter_rot s) _) as [fr sr].
  reflexivity.
Qed.

Lemma callback_latest_command (s : State) (msg : Twist) :
  latest_command_ (robot_controller (cmd_vel_subscription_callback s msg)) =
  smooth s msg.
Proof.
  unfold cmd_vel_subscription_callback, smooth.
  destruct (Filters.update (cmd_vel_filter_x s) _) as [fx sx].
  destruct (Filters.update (cmd_vel_filter_y s) _) as [fy sy].
  destruct (Filters.update (cmd_vel_filter_rot s) _) as [fr sr].
  reflexivity.
Qed.

Lemma callback_controllers (s : State) (msg : Twist) :
  controller_M (cmd_vel_subscription_callback s msg) =
  quad_map (fun c => set_ki c (select_ki (smooth s msg))) (controller_M s).
Proof.
  unfold cmd_vel_subscription_callback, smooth.
  destruct (Filters.update (cmd_vel_filter_x s) _) as [fx sx].
  destruct (Filters.update (cmd_vel_filter_y s) _) as [fy sy].
  destruct (Filters.update (cmd_vel_filter_rot s) _) as [fr sr].
  reflexivity.
Qed.

Lemma callback_filters (s : State) (msg : Twist) :
  cmd_vel_filter_x (cmd_vel_subscription_callback s msg) =
    fst (Filters.update (cmd_vel_filter_x s) (x (linear msg))) /\
  cmd_vel_filter_y (cmd_vel_subscription_callback s msg) =
    fst (Filters.update (cmd_vel_filter_y s) (y (linear msg))) /\
  cmd_vel_filter_rot (cmd_vel_subscription_callback s msg) =
    fst (Filters.update (cmd_vel_filter_rot s) (z (angular msg))).
Proof.
  unfold cmd_vel_subscription_callback.
  destruct (Filters.update (cmd_vel_filter_x s) _) as [fx sx].
  destruct (Filters.update (cmd_vel_filter_y s) _) as [fy sy].
  destruct (Filters.update (cmd_vel_filter_rot s) _) as [fr sr].
  auto.
Qed.

(** All four regulators carry the gain chosen for the smoothed command. *)
Lemma callback_ki (s : State) (msg : Twist) :
  quad_all (fun c => ki c = select_ki (smooth s msg))
           (controller_M (cmd_vel_subscription_callback s msg)).
Proof.
  rewrite callback_controllers. unfold quad_all, quad_map; simpl. auto.
Qed.

Lemma quad_all_eq {A : Type} (f : A -> R) (a b : R) (q : Quad A) :
  a = b -> quad_all (fun c => f c = a) q -> quad_all (fun c => f c = b) q.
Proof. intros ->. auto. Qed.

End CallbackFacts.

Section SmoothingFacts.

Import Kinematics Filters PID Motor Velocity Core.

(** Cutting a window twice is cutting it once. *)
Lemma firstn_cons_firstn (W : nat) (a : R) (l : list R) :
  firstn W (a :: firstn W l) = firstn W (a :: l).
Proof.
  destruct W as [| w]; [reflexivity |].
  simpl. f_equal.
  replace (firstn w match l with [] => [] | b :: t => b :: firstn w t end)
    with (firstn w (firstn (S w) l)) by reflexivity.
  rewrite firstn_firstn. f_equal. lia.
Qed.

(** After any history a moving-average filter holds the last [W] samples,
    latest first. *)
Lemma feed_window (W : nat) (history : list R) :
  feed (MovingAverageFilter W) history =
  MovingAverage W (firstn W (rev history)).
Proof.
  unfold feed, MovingAverageFilter.
  induction history as [| a h IH] using rev_ind.
  - simpl. rewrite firstn_nil. reflexivity.
  - rewrite fold_left_app. simpl. rewrite IH. simpl fst.
    rewrite rev_app_distr. simpl rev. simpl app.
    rewrite firstn_cons_firstn. reflexivity.
Qed.

(** The output for a new sample is the mean of the last [W] samples. *)
Lemma feed_update (W : nat) (history : list R) (a : R) :
  snd (Filters.update (feed (MovingAverageFilter W) history) a) =
  mean (firstn W (rev (history ++ [a]))).
Proof.
  rewrite feed_window. simpl snd.
  rewrite firstn_cons_firstn, rev_app_distr. reflexivity.
Qed.

Lemma feed_snoc (f : Filter) (history : list R) (a : R) :
  feed f (history ++ [a]) = fst (Filters.update (feed f history) a).
Proof. unfold feed. rewrite fold_left_app. reflexivity. Qed.

Lemma receive_snoc (s : State) (msgs : list Twist) (msg : Twist) :
  receive s (msgs ++ [msg]) =
  cmd_vel_subscription_callback (receive s msgs) msg.
Proof. unfold receive. rewrite fold_left_app. reflexivity. Qed.

(** The three command filters after a series of messages. *)
Lemma receive_filters (s : State) (msgs : list Twist) :
  cmd_vel_filter_x (receive s msgs) =
    feed (cmd_vel_filter_x s) (map (fun m => x (linear m)) msgs) /\
  cmd_vel_filter_y (receive s msgs) =
    feed (cmd_vel_filter_y s) (map (fun m => y (linear m)) msgs) /\
  cmd_vel_filter_rot (receive s msgs) =
    feed (cmd_vel_filter_rot s) (map (fun m => z (angular m)) msgs).
Proof.
  induction msgs as [| msg msgs IH] using rev_ind.
  - simpl. auto.
  - rewrite receive_snoc, !map_app. simpl map. rewrite !feed_snoc.
    destruct IH as (Hx & Hy & Hr).
    destruct (callback_filters (receive s msgs) msg) as (Fx & Fy & Fr).
    rewrite Fx, Fy, Fr, Hx, Hy, Hr. auto.
Qed.

End SmoothingFacts.

Section CommandClaims.

Import Kinematics Filters PID Motor Velocity Core.

(** A zero command followed by the command (0.8, 0, 0), on the firmware
    as it starts. *)
Lemma step_command_smoothed (r a b : R) :
  smooth (receive (initial r a b) [twist_of 0 0 0]) (twist_of 0.8 0 0) =
  mkVector3d 0.4 0 0.
Proof.
  unfold smooth, receive, initial, cmd_vel_subscription_callback,
    twist_of, MovingAverageFilter; simpl.
  unfold mean, Filters.sum; simpl.
  apply vector3d_eq; lra.
Qed.

Lemma select_ki_step_command : select_ki (mkVector3d 0.4 0 0) = base_ki.
Proof.
  apply select_ki_base; simpl.
  - rewrite Rabs_R0, Rabs_pos_eq by lra. lra.
  - rewrite Rabs_R0. lra.
Qed.

Lemma select_ki_raw_step_command :
  select_ki (raw_command (twist_of 0.8 0 0)) = base_ki * modifier_ki_linear.
Proof.
  apply select_ki_linear; simpl. left.
  rewrite Rabs_pos_eq by lra. lra.
Qed.




(** C9: the command the velocity controller tracks is the smoothed one:
    the callback stores the outputs of the three moving-average filters,
    which are the means of the last 2 linear-x, the last 2 linear-y and
    the last 4 angular-z values received, and chooses [ki] on them.  So a
    large command after a small one is neither tracked at full magnitude
    nor given the gain its raw value would select: after a zero command,
    (0.8, 0, 0) is tracked as (0.4, 0, 0) with [base_ki]. *)
Theorem command_smoothing :
  (forall (s : State) (msg : Twist),
     let s' := cmd_vel_subscription_callback s msg in
     latest_command_ (robot_controller s') = smooth s msg /\
     smoothed_cmd_vel s' = smooth s msg /\
     quad_all
       (fun c => ki c = select_ki (latest_command_ (robot_controller s')))
       (controller_M s')) /\
  (forall (r a b : R) (msgs : list Twist) (msg : Twist),
     let received := msgs ++ [msg] in
     latest_command_ (robot_controller (receive (initial r a b) received)) =
     mkVector3d
       (mean (firstn 2 (rev (map (fun m => x (linear m)) received))))
       (mean (firstn 2 (rev (map (fun m => y (linear m)) received))))
       (mean (firstn 4 (rev (map (fun m => z (angular m)) received))))) /\
  (forall r a b : R,
     let s' := receive (initial r a b) [twist_of 0 0 0; twist_of 0.8 0 0] in
     latest_command_ (robot_controller s') = mkVector3d 0.4 0 0 /\
     latest_command_ (robot_controller s') <>
       raw_command (twist_of 0.8 0 0) /\
     quad_all (fun c => ki c = base_ki) (controller_M s') /\
     select_ki (raw_command (twist_of 0.8 0 0)) =
       base_ki * modifier_ki_linear).
Proof.
  split; [| split].
  - intros s msg s'. subst s'.
    rewrite callback_latest_command, callback_smoothed.
    split; [reflexivity |]. split; [reflexivity |]. apply callback_ki.
  - intros r a b msgs msg received. subst received.
    rewrite receive_snoc, callback_latest_command. unfold smooth.
    destruct (receive_filters (initial r a b) msgs) as (Hx & Hy & Hr).
    rewrite Hx, Hy, Hr.
    change (cmd_vel_filter_x (initial r a b)) with (MovingAverageFilter 2).
    change (cmd_vel_filter_y (initial r a b)) with (MovingAverageFilter 2).
    change (cmd_vel_filter_rot (initial r a b)) with (MovingAverageFilter 4).
    rewrite !feed_update, !map_app. reflexivity.
  - intros r a b s'. subst s'.
    change (receive (initial r a b) [twist_of 0 0 0; twist_of 0.8 0 0])
      with (cmd_vel_subscription_callback
              (receive (initial r a b) [twist_of 0 0 0]) (twist_of 0.8 0 0)).
    rewrite callback_latest_command, step_command_smoothed.
    split; [reflexivity |]. split.
    + unfold raw_command, twist_of; simpl. intros E.
      injection E as E. lra.
    + split.
      * eapply quad_all_eq; [| apply callback_ki].
        rewrite step_command_smoothed. apply select_ki_step_command.
      * apply select_ki_raw_step_command.
Qed.

End CommandClaims.

(* ================================================================= *)
(** * [loop]: what one pass computes *)

Section LoopFacts.

Import Kinematics Filters PID Motor Velocity Core.

Lemma regulate_measured (m : PIDMotorController) (pid : PIDController)
    (e dt : R) :
  measured_ (fst (fst (regulate m pid e dt))) = e.
Proof.
  unfold regulate.
  destruct (Filters.update (input_filter_ m) e) as [fi input].
  destruct (compute pid (target_ m) input dt) as [pid' output].
  destruct (Filters.update (output_filter_ m) output) as [fo filtered].
  reflexivity.
Qed.

Lemma update_measured (m : PIDMotorController) (pid : PIDController)
    (e dt : R) :
  measured_ (fst (fst (Motor.update m pid e dt))) = e.
Proof.
  unfold Motor.update.
  pose proof (regulate_measured m pid e dt) as H.
  destruct (regulate m pid e dt) as [[m' pid'] filtered]. exact H.
Qed.

(** After the array update the measured velocities are the encoder
    velocities of that pass. *)
Lemma update_all_measured (ms : Quad PIDMotorController)
    (pids : Quad PIDController) (e : Vector4d) (dt : R) :
  get_measured_velocities (fst (fst (update_all ms pids e dt))) = e.
Proof.
  unfold update_all.
  pose proof (update_measured (q0 ms) (q0 pids) (q0 e) dt) as H0.
  pose proof (update_measured (q1 ms) (q1 pids) (q1 e) dt) as H1.
  pose proof (update_measured (q2 ms) (q2 pids) (q2 e) dt) as H2.
  pose proof (update_measured (q3 ms) (q3 pids) (q3 e) dt) as H3.
  destruct (Motor.update (q0 ms) _ _ _) as [[m0 p0] o0].
  destruct (Motor.update (q1 ms) _ _ _) as [[m1 p1] o1].
  destruct (Motor.update (q2 ms) _ _ _) as [[m2 p2] o2].
  destruct (Motor.update (q3 ms) _ _ _) as [[m3 p3] o3].
  simpl in *. unfold get_measured_velocities, quad_map; simpl.
  unfold get_measured_velocity. rewrite H0, H1, H2, H3.
  destruct e; reflexivity.
Qed.

(** The velocity estimate after the controller update is forward
    kinematics of the encoder velocities. *)
Lemma velocity_update_estimate (vc : VelocityController)
    (kin : MecanumKinematics4W) (ms : Quad PIDMotorController)
    (pids : Quad PIDController) (e : Vector4d) (dt : R) :
  get_robot_velocity (fst (fst (fst (Velocity.update vc kin ms pids e dt)))) =
  calculate_robot_velocity kin e.
Proof.
  unfold Velocity.update.
  pose proof (update_all_measured
    (set_targets ms (calculate_wheel_velocity kin (latest_command_ vc)))
    pids e dt) as H.
  destruct (update_all _ pids e dt) as [[ms2 pids2] outputs].
  simpl in *. unfold get_robot_velocity; simpl. rewrite H. reflexivity.
Qed.

(** The callback leaves everything outside the command path alone. *)
Lemma callback_frame (s : State) (msg : Twist) :
  let s' := cmd_vel_subscription_callback s msg in
  kinematics s' = kinematics s /\ pose s' = pose s /\
  last_time s' = last_time s /\ odom_msg s' = odom_msg s /\
  joint_state_msg s' = joint_state_msg s.
Proof.
  unfold cmd_vel_subscription_callback.
  destruct (Filters.update (cmd_vel_filter_x s) _) as [fx sx].
  destruct (Filters.update (cmd_vel_filter_y s) _) as [fy sy].
  destruct (Filters.update (cmd_vel_filter_rot s) _) as [fr sr].
  simpl. auto.
Qed.

Lemma spin_some_frame (s : State) (i : Inputs) :
  let s' := spin_some s i in
  kinematics s' = kinematics s /\ pose s' = pose s /\
  last_time s' = last_time s /\ odom_msg s' = odom_msg s /\
  joint_state_msg s' = joint_state_msg s.
Proof.
  unfold spin_some. destruct (incoming i) as [msg |].
  - apply callback_frame.
  - simpl. auto.
Qed.

(** One pass of [loop], field by field. *)
Lemma loop_fields (s : State) (i : Inputs) :
  let dt := elapsed (now i) (last_time s) in
  kinematics (loop s i) = kinematics s /\
  get_robot_velocity (robot_controller (loop s i)) = estimate s i /\
  pose (loop s i) = integrate_pose (pose s) (estimate s i) dt /\
  joint_state_msg (loop s i) =
    integrate_joints (joint_state_msg s) (projected s i) dt /\
  pose_covariance (odom_msg (loop s i)) = pose_covariance (odom_msg s) /\
  twist_covariance (odom_msg (loop s i)) = twist_covariance (odom_msg s) /\
  last_time (loop s i) = (now i mod ULONG_MODULUS)%Z.
Proof.
  intros dt. subst dt. unfold loop, projected, estimate.
  destruct (spin_some_frame s i) as (Hk & Hp & Ht & Ho & Hj).
  pose proof (velocity_update_estimate (robot_controller (spin_some s i))
    (kinematics (spin_some s i)) (motor_controller_M (spin_some s i))
    (controller_M (spin_some s i)) (encoder_velocity i) (control_dt i)) as He.
  destruct (Velocity.update _ _ _ _ _ _) as [[[vc ms] pids] outputs].
  simpl in *. rewrite He, Hk, Hp, Ht, Ho, Hj. auto 10.
Qed.

End LoopFacts.

(* ================================================================= *)
(** * The odometry covariance *)

Section CovarianceFacts.

Import Core.

(** The buffer after lines 301-313, cell by cell. *)
Lemma fill_covariance_cells
  (c0 c1 c2 c3 c4 c5 c6 c7 c8 c9 c10 c11 c12 c13 c14 c15 c16 c17 c18 c19
   c20 c21 c22 c23 c24 c25 c26 c27 c28 c29 c30 c31 c32 c33 c34 c35 : R) :
  fill_covariance
    [c0; c1; c2; c3; c4; c5; c6; c7; c8; c9; c10; c11; c12; c13; c14; c15;
     c16; c17; c18; c19; c20; c21; c22; c23; c24; c25; c26; c27; c28; c29;
     c30; c31; c32; c33; c34; c35] =
  [0.8; 0.0; 0.0; 0.0; 0.0; 0.0;
   0.0; 0.8; 0.0; 0.0; 0.0; 0.0;
   0.0; 0.0; 0.8; 0.0; 0.0; 0.0;
   0.0; 0.0; 0.0; 0;   0.0; 0.0;
   0.0; 0.0; 0.0; 0.0; 0;   0.0;
   0.0; 0.0; 0.0; 0.0; 0.0; 0.8].
Proof.
  cbv [fill_covariance clear_off_diagonal fold_left seq store negb
       Nat.eqb Nat.modulo Nat.divmod Nat.add Nat.sub fst snd].
  reflexivity.
Qed.

Ltac cells l :=
  do 36 (destruct l as [| ? l]; [discriminate |]);
  destruct l as [| ? l]; [| discriminate].

(** Whatever [malloc] returned, the buffer ends up diagonal, with 0.8 on
    x, y, z and yaw and 0 on roll and pitch. *)
Lemma fill_covariance_entries (cells0 : list R) (a b : Axis) :
  length cells0 = 36%nat ->
  covariance_at (fill_covariance cells0) a b =
  match a, b with
  | AxisX, AxisX | AxisY, AxisY | AxisZ, AxisZ | RotZ, RotZ => 0.8
  | _, _ => 0
  end.
Proof.
  intros H. cells cells0. rewrite fill_covariance_cells.
  unfold covariance_at, entry.
  destruct a, b; cbv [axis_index nth Nat.add Nat.mul]; lra.
Qed.

Lemma fill_covariance_length (cells0 : list R) :
  length cells0 = 36%nat -> length (fill_covariance cells0) = 36%nat.
Proof.
  intros H. cells cells0. rewrite fill_covariance_cells. reflexivity.
Qed.

(** No pass of [loop] touches the covariance arrays. *)
Lemma run_covariance (inputs : list Inputs) (s : State) :
  pose_covariance (odom_msg (run s inputs)) = pose_covariance (odom_msg s) /\
  twist_covariance (odom_msg (run s inputs)) = twist_covariance (odom_msg s).
Proof.
  unfold run. revert s. induction inputs as [| i inputs IH]; intros s; simpl.
  - auto.
  - destruct (IH (loop s i)) as [Hp Ht].
    destruct (loop_fields s i) as (_ & _ & _ & _ & Lp & Lt & _).
    rewrite Hp, Ht, Lp, Lt. auto.
Qed.

(** C8 (as [setup] has it): the covariance of the odometry message is
    fixed by [setup] and no pass of [loop] changes it; whatever the
    allocated buffer held, it is the diagonal matrix with 0.8 on the x,
    y, z and yaw terms and 0 on the roll and pitch terms and on every
    off-diagonal entry, and the pose and twist blocks are the same. *)
Theorem odometry_covariance_static (s : State) (h : Heap)
    (inputs : list Inputs) :
  length (temp_covariance_cells h) = 36%nat ->
  let fixed := fill_covariance (temp_covariance_cells h) in
  let o := odom_msg (run (setup s h) inputs) in
  pose_covariance o = fixed /\ twist_covariance o = fixed /\
  length fixed = 36%nat /\
  (forall a b : Axis, a <> b -> covariance_at fixed a b = 0) /\
  covariance_at fixed AxisX AxisX = 0.8 /\
  covariance_at fixed AxisY AxisY = 0.8 /\
  covariance_at fixed AxisZ AxisZ = 0.8 /\
  covariance_at fixed RotX RotX = 0 /\
  covariance_at fixed RotY RotY = 0 /\
  covariance_at fixed RotZ RotZ = 0.8.
Proof.
  intros H fixed o. subst fixed o.
  destruct (run_covariance inputs (setup s h)) as [Hp Ht].
  rewrite Hp, Ht.
  split; [reflexivity |]. split; [reflexivity |].
  split; [apply fill_covariance_length; exact H |].
  split.
  - intros a b Hab. rewrite fill_covariance_entries by exact H.
    destruct a, b; try reflexivity; contradiction Hab; reflexivity.
  - repeat split; rewrite fill_covariance_entries by exact H; reflexivity.
Qed.

Lemma odometry_covariance_static_witness :
  covariance_at
    (pose_covariance
       (odom_msg
          (run (setup (initial 0.05 0.1 0.1)
                  (mkHeap (repeat 1 36) (mkQuad 0 0 0 0) (mkQuad 0 0 0 0)))
               [])))
    AxisX AxisY = 0.
Proof.
  assert (H : length (temp_covariance_cells
                (mkHeap (repeat 1 36) (mkQuad 0 0 0 0) (mkQuad 0 0 0 0)))
              = 36%nat) by reflexivity.
  pose proof (odometry_covariance_static (initial 0.05 0.1 0.1)
    (mkHeap (repeat 1 36) (mkQuad 0 0 0 0) (mkQuad 0 0 0 0)) [] H) as T.
  cbv zeta in T. destruct T as (Hp & _ & _ & Hoff & _).
  rewrite Hp. apply Hoff. discriminate.
Defined.

(** C8, the claim as written, fails on the z term: z is no axis the
    planar robot observes, and its diagonal entry is 0.8, not 0. *)
Lemma covariance_z_term_not_zero :
  let o := odom_msg
             (setup (initial 0.05 0.1 0.1)
                (mkHeap (repeat 0 36) (mkQuad 0 0 0 0) (mkQuad 0 0 0 0))) in
  observed AxisZ = false /\
  covariance_at (pose_covariance o) AxisZ AxisZ = 0.8 /\
  ~ (forall a b : Axis,
       covariance_at (pose_covariance o) a b =
       if observed a && observed b && Nat.eqb (axis_index a) (axis_index b)
       then 0.8 else 0).
Proof.
  cbv zeta.
  change (pose_covariance
            (odom_msg
               (setup (initial 0.05 0.1 0.1)
                  (mkHeap (repeat 0 36) (mkQuad 0 0 0 0) (mkQuad 0 0 0 0)))))
    with (fill_covariance (repeat 0 36)).
  assert (E : covariance_at
                (fill_covariance (repeat 0 36)) AxisZ AxisZ = 0.8).
  { rewrite fill_covariance_entries by reflexivity. reflexivity. }
  split; [reflexivity |]. split; [exact E |].
  intros H. specialize (H AxisZ AxisZ). rewrite E in H.
  cbv [observed andb axis_index Nat.eqb] in H. lra.
Qed.

End CovarianceFacts.

(* ================================================================= *)
(** * Dead-reckoning odometry *)

Section OdometryFacts.
Import Kinematics Core.

Lemma atan_nonpos (u : R) : u <= 0 -> atan u <= 0.
Proof.
  intros [H | H].
  - left. rewrite <- atan_0. apply atan_increasing. exact H.
  - subst u. rewrite atan_0. lra.
Qed.

Lemma atan_pos (u : R) : 0 < u -> 0 < atan u.
Proof.
  intros H. rewrite <- atan_0. apply atan_increasing. exact H.
Qed.

(** [atan2] lands in (-PI, PI]. *)
Lemma atan2_range (y x : R) : - PI < atan2 y x <= PI.
Proof.
  pose proof PI_RGT_0 as HPI.
  unfold atan2.
  destruct (Rlt_dec 0 x) as [Hx | Hx].
  - pose proof (atan_bound (y / x)). lra.
  - destruct (Rlt_dec x 0) as [Hx' | Hx'].
    + pose proof (atan_bound (y / x)) as Hb.
      assert (Hinv : / x < 0) by (apply Rinv_lt_0_compat; exact Hx').
      destruct (Rle_dec 0 y) as [Hy | Hy].
      * assert (Hq : y / x <= 0) by (unfold Rdiv; nra).
        pose proof (atan_nonpos _ Hq). lra.
      * assert (Hq : 0 < y / x) by (unfold Rdiv; nra).
        pose proof (atan_pos _ Hq). lra.
    + destruct (Rlt_dec 0 y); [lra |].
      destruct (Rlt_dec y 0); lra.
Qed.

(** On an angle already in (-PI, PI], wrapping changes nothing. *)
Lemma atan2_sin_cos (t : R) :
  - PI < t <= PI -> atan2 (sin t) (cos t) = t.
Proof.
  intros [Hlo Hhi]. pose proof PI_RGT_0 as HPI. unfold atan2.
  destruct (Rlt_dec 0 (cos t)) as [Hc | Hc].
  - (* cos t > 0: t is in (-PI/2, PI/2) *)
    assert (Ht : - (PI / 2) < t < PI / 2).
    { split.
      - destruct (Rlt_le_dec (- (PI / 2)) t) as [H | H]; [exact H |].
        exfalso. assert (Hn : cos (- t) <= 0).
        { apply cos_le_0; lra. }
        rewrite cos_neg in Hn. lra.
      - destruct (Rlt_le_dec t (PI / 2)) as [H | H]; [exact H |].
        exfalso. assert (Hn : cos t <= 0) by (apply cos_le_0; lra). lra. }
    change (sin t / cos t) with (tan t). apply atan_tan. exact Ht.
  - destruct (Rlt_dec (cos t) 0) as [Hc' | Hc'].
    + destruct (Rle_dec 0 (sin t)) as [Hs | Hs].
      * (* second quadrant *)
        assert (Ht : PI / 2 < t).
        { destruct (Rlt_le_dec (PI / 2) t) as [H | H]; [exact H |].
          exfalso. destruct (Rle_lt_dec 0 t) as [H0 | H0].
          - assert (0 <= cos t) by (apply cos_ge_0; lra). lra.
          - assert (sin t < 0) by (apply sin_lt_0_var; lra). lra. }
        assert (E : sin t / cos t = tan (t - PI)).
        { unfold tan.
          replace t with ((t - PI) + PI) at 1 2 by ring.
          rewrite neg_sin, neg_cos.
          assert (cos (t - PI) <> 0).
          { replace t with ((t - PI) + PI) in Hc' by ring.
            rewrite neg_cos in Hc'. lra. }
          field. assumption. }
        rewrite E, atan_tan by lra. ring.
      * (* third quadrant *)
        assert (Ht : t < - (PI / 2)).
        { destruct (Rlt_le_dec t (- (PI / 2))) as [H | H]; [exact H |].
          exfalso. destruct (Rle_lt_dec 0 t) as [H0 | H0].
          - assert (0 <= sin t) by (apply sin_ge_0; lra). lra.
          - assert (0 <= cos (- t)) by (apply cos_ge_0; lra).
            rewrite cos_neg in *. lra. }
        assert (E : sin t / cos t = tan (t + PI)).
        { unfold tan. rewrite neg_sin, neg_cos. field. lra. }
        rewrite E, atan_tan by lra. ring.
    + (* cos t = 0 *)
      assert (Hz : cos t = 0) by lra.
      destruct (Rlt_dec 0 (sin t)) as [Hs | Hs].
      * destruct (Rtotal_order t (PI / 2)) as [H | [H | H]].
        -- exfalso. destruct (Rlt_le_dec (- (PI / 2)) t) as [H1 | H1].
           ++ assert (0 < cos t) by (apply cos_gt_0; lra). lra.
           ++ destruct H1 as [H1 | H1].
              ** assert (sin t < 0) by (apply sin_lt_0_var; lra). lra.
              ** subst t. rewrite sin_neg, sin_PI2 in Hs. lra.
        -- exact (eq_sym H).
        -- exfalso. assert (cos t < 0) by (apply cos_lt_0; lra). lra.
      * destruct (Rlt_dec (sin t) 0) as [Hs' | Hs'].
        -- destruct (Rtotal_order t (- (PI / 2))) as [H | [H | H]].
           ++ exfalso. assert (cos (- t) < 0) by (apply cos_lt_0; lra).
              rewrite cos_neg in *. lra.
           ++ exact (eq_sym H).
           ++ exfalso. destruct (Rlt_le_dec t (PI / 2)) as [H1 | H1].
              ** assert (0 < cos t) by (apply cos_gt_0; lra). lra.
              ** assert (0 <= sin t) by (apply sin_ge_0; lra). lra.
        -- exfalso. assert (Hs0 : sin t = 0) by lra.
           pose proof (sin2_cos2 t) as Hsc. unfold Rsqr in Hsc.
           rewrite Hs0, Hz in Hsc. lra.
Qed.

Lemma sin_cos_period_Z (t : R) (k : Z) :
  sin (t + 2 * IZR k * PI) = sin t /\ cos (t + 2 * IZR k * PI) = cos t.
Proof.
  destruct (Z_le_gt_dec 0 k) as [Hk | Hk].
  - rewrite <- (Z2Nat.id k Hk), <- INR_IZR_INZ.
    split; [apply sin_period | apply cos_period].
  - assert (Hn : (0 <= - k)%Z) by lia.
    assert (E : t = (t + 2 * IZR k * PI) + 2 * INR (Z.to_nat (- k)) * PI).
    { rewrite INR_IZR_INZ, (Z2Nat.id _ Hn), opp_IZR. ring. }
    split.
    + rewrite E at 2. rewrite sin_period. reflexivity.
    + rewrite E at 2. rewrite cos_period. reflexivity.
Qed.

(** Every angle has a representative in (-PI, PI]. *)
Lemma wrap_exists (t : R) :
  exists k : Z, - PI < t + 2 * IZR k * PI <= PI.
Proof.
  pose proof PI_RGT_0 as HPI.
  set (u := (PI - t) / (2 * PI)).
  destruct (archimed u) as [Hup Hlow].
  exists (up u - 1)%Z. rewrite minus_IZR.
  assert (Hu : u * (2 * PI) = PI - t).
  { unfold u. field. lra. }
  split; nra.
Qed.

(** Wrapping keeps the angle modulo a full turn. *)
Lemma atan2_wraps (t : R) :
  exists k : Z, atan2 (sin t) (cos t) = t + 2 * IZR k * PI.
Proof.
  destruct (wrap_exists t) as [k Hk]. exists k.
  destruct (sin_cos_period_Z t k) as [Hs Hc].
  rewrite <- Hs, <- Hc. apply atan2_sin_cos. exact Hk.
Qed.

(** Driving straight ahead at heading 0. *)
Lemma integrate_pose_straight (px v dt : R) :
  integrate_pose (mkVector3d px 0 0) (mkVector3d v 0 0) dt =
  mkVector3d (px + v * dt) 0 0.
Proof.
  unfold integrate_pose; simpl.
  replace (0 + 0 * dt) with 0 by ring.
  rewrite atan2_sin_cos by (pose proof PI_RGT_0; lra).
  rewrite sin_0, cos_0. apply vector3d_eq; ring.
Qed.

(** Turning on the spot while the heading stays inside (-PI, PI]. *)
Lemma integrate_pose_turn (px py th w dt : R) :
  - PI < th + w * dt <= PI ->
  integrate_pose (mkVector3d px py th) (mkVector3d 0 0 w) dt =
  mkVector3d px py (th + w * dt).
Proof.
  intros H. unfold integrate_pose; simpl.
  rewrite atan2_sin_cos by exact H.
  apply vector3d_eq; ring.
Qed.

Lemma straight_ten_steps :
  integrate_steps 10 (mkVector3d 1.0 0 0) 0.1 Vector3d_Zero =
  mkVector3d 1.0 0 0.
Proof.
  unfold integrate_steps, Vector3d_Zero. simpl Nat.iter.
  rewrite !integrate_pose_straight. apply vector3d_eq; lra.
Qed.

Lemma turn_ten_steps :
  integrate_steps 10 (mkVector3d 0 0 (PI / 2)) 0.1 Vector3d_Zero =
  mkVector3d 0 0 (PI / 2).
Proof.
  pose proof PI_RGT_0 as HPI.
  unfold integrate_steps, Vector3d_Zero. simpl Nat.iter.
  repeat (rewrite integrate_pose_turn by lra).
  apply vector3d_eq; lra.
Qed.

(** C6: one odometry step takes the pose (x, y, th) under the velocity
    estimate (vx, vy, w) to x + (vx cos th - vy sin th) dt,
    y + (vx sin th + vy cos th) dt and atan2(sin(th + w dt), cos(th + w dt));
    the new heading lies in (-PI, PI] and differs from th + w dt by whole
    turns; [loop] applies this step to the velocity estimate of the pass.
    From the zero pose, (1.0, 0, 0) over 10 steps of 0.1 s gives
    (1.0, 0, 0), and (0, 0, PI/2) over 10 steps of 0.1 s gives heading
    PI/2. *)
Theorem odometry_step :
  (forall px py th vx vy w dt : R,
     let pose' := integrate_pose (mkVector3d px py th)
                                 (mkVector3d vx vy w) dt in
     v0 pose' = px + (vx * cos th - vy * sin th) * dt /\
     v1 pose' = py + (vx * sin th + vy * cos th) * dt /\
     v2 pose' = atan2 (sin (th + w * dt)) (cos (th + w * dt)) /\
     - PI < v2 pose' <= PI /\
     exists k : Z, v2 pose' = th + w * dt + 2 * IZR k * PI) /\
  (forall (s : State) (i : Inputs),
     pose (loop s i) =
     integrate_pose (pose s) (estimate s i)
                    (elapsed (now i) (last_time s))) /\
  integrate_steps 10 (mkVector3d 1.0 0 0) 0.1 Vector3d_Zero =
    mkVector3d 1.0 0 0 /\
  integrate_steps 10 (mkVector3d 0 0 (PI / 2)) 0.1 Vector3d_Zero =
    mkVector3d 0 0 (PI / 2).
Proof.
  split; [| split; [| split]].
  - intros px py th vx vy w dt pose'. subst pose'.
    unfold integrate_pose; simpl.
    split; [ring |]. split; [ring |]. split; [reflexivity |].
    split; [apply atan2_range | apply atan2_wraps].
  - intros s i. destruct (loop_fields s i) as (_ & _ & Hp & _). exact Hp.
  - exact straight_ten_steps.
  - exact turn_ten_steps.
Qed.

End OdometryFacts.

(* ================================================================= *)
(** * The published joint state *)

Section JointFacts.

Import Kinematics Motor Velocity Core.

Lemma run_kinematics (inputs : list Inputs) (s : State) :
  kinematics (run s inputs) = kinematics s.
Proof.
  unfold run. revert s. induction inputs as [| i inputs IH]; intros s; simpl.
  - reflexivity.
  - rewrite IH. destruct (loop_fields s i) as (Hk & _). exact Hk.
Qed.

(** The accumulated positions after a series of passes: where they
    started plus the travel of the projected velocities. *)
Lemma run_position (inputs : list Inputs) (s : State) :
  position (joint_state_msg (run s inputs)) =
  quad_zip Rplus (position (joint_state_msg s))
           (travel (kinematics s) (last_time s) inputs).
Proof.
  unfold run. revert s. induction inputs as [| i inputs IH]; intros s.
  - simpl. destruct (position (joint_state_msg s)) as [a b c d].
    unfold quad_zip; simpl. apply quad_eq; ring.
  - simpl fold_left. rewrite IH.
    destruct (loop_fields s i) as (Hk & _ & _ & Hj & _ & _ & Ht).
    rewrite Hk, Hj, Ht. simpl travel.
    unfold integrate_joints, projected, estimate, quad_zip, quad_map; simpl.
    apply quad_eq; ring.
Qed.

Lemma integrate_joints_velocity (js : JointState) (w : Vector4d) (dt : R) :
  velocity (integrate_joints js w dt) = w.
Proof. destruct w; reflexivity. Qed.

Lemma integrate_joints_position (js : JointState) (w : Vector4d) (dt : R) :
  position (integrate_joints js w dt) =
  quad_zip (fun p v => p + v * dt) (position js) w.
Proof. reflexivity. Qed.

(** The projection sends every wheel velocity set to a consistent one,
    fixes the consistent ones, and moves no further than needed. *)
Lemma projection_properties (kin : MecanumKinematics4W) (w : Vector4d) :
  valid_geometry kin ->
  let p := calculate_wheel_velocity kin (calculate_robot_velocity kin w) in
  consistent p /\
  (consistent w -> p = w) /\
  calculate_wheel_velocity kin (calculate_robot_velocity kin p) = p /\
  (forall c : Vector4d, consistent c ->
     norm2 (quad_zip Rminus p w) <= norm2 (quad_zip Rminus c w)).
Proof.
  intros H p. subst p.
  split; [apply wheel_velocity_consistent |].
  split; [apply inverse_forward; exact H |].
  split.
  - apply inverse_forward; [exact H | apply wheel_velocity_consistent].
  - intros c Hc.
    rewrite <- (inverse_forward kin c H Hc).
    apply (forward_least_squares kin w (calculate_robot_velocity kin c) H).
Qed.

(** C10: the joint state [loop] publishes comes from the body-velocity
    estimate, not from the raw wheel measurements: in each pass the wheel
    velocities are inverse kinematics of the estimate, the estimate is
    forward kinematics of the encoder velocities of that pass, so the
    published velocities are the measurements projected on the consistent
    wheel velocity sets, and each position accumulates that projected
    velocity times dt. *)
Theorem joint_state_from_estimate (s : State) (i : Inputs)
    (inputs : list Inputs) :
  let dt := elapsed (now i) (last_time s) in
  let kin := kinematics s in
  let published := velocity (joint_state_msg (loop s i)) in
  get_robot_velocity (robot_controller (loop s i)) =
    calculate_robot_velocity kin (encoder_velocity i) /\
  published =
    calculate_wheel_velocity kin
      (calculate_robot_velocity kin (encoder_velocity i)) /\
  position (joint_state_msg (loop s i)) =
    quad_zip (fun p v => p + v * dt) (position (joint_state_msg s))
             published /\
  position (joint_state_msg (run s inputs)) =
    quad_zip Rplus (position (joint_state_msg s))
             (travel kin (last_time s) inputs) /\
  (~ consistent (encoder_velocity i) -> published <> encoder_velocity i) /\
  (valid_geometry kin ->
   consistent published /\
   (consistent (encoder_velocity i) -> published = encoder_velocity i) /\
   (forall c : Vector4d, consistent c ->
      norm2 (quad_zip Rminus published (encoder_velocity i)) <=
      norm2 (quad_zip Rminus c (encoder_velocity i)))).
Proof.
  intros dt kin published. subst dt kin published.
  destruct (loop_fields s i) as (_ & He & _ & Hj & _).
  rewrite Hj, integrate_joints_velocity, integrate_joints_position.
  unfold projected, estimate.
  split; [exact He |]. split; [reflexivity |]. split; [reflexivity |].
  split; [apply run_position |]. split.
  - intros Hn E. apply Hn. rewrite <- E. apply wheel_velocity_consistent.
  - intros H.
    destruct (projection_properties (kinematics s) (encoder_velocity i) H)
      as (P1 & P2 & _ & P4).
    auto.
Qed.

Lemma joint_state_from_estimate_witness :
  consistent
    (velocity
       (joint_state_msg
          (loop (initial 0.05 0.1 0.1)
                (mkInputs None (mkQuad 1 0 0 0) 0.01 10)))) /\
  velocity
    (joint_state_msg
       (loop (initial 0.05 0.1 0.1)
             (mkInputs None (mkQuad 1 0 0 0) 0.01 10))) <>
  mkQuad 1 0 0 0.
Proof.
  assert (H : valid_geometry (kinematics (initial 0.05 0.1 0.1))).
  { unfold valid_geometry, geometry_factor, initial; simpl. split; lra. }
  assert (Hn : ~ consistent
                 (encoder_velocity (mkInputs None (mkQuad 1 0 0 0) 0.01 10))).
  { unfold consistent; simpl. lra. }
  pose proof (joint_state_from_estimate (initial 0.05 0.1 0.1)
                (mkInputs None (mkQuad 1 0 0 0) 0.01 10) []) as T.
  cbv zeta in T. destruct T as (_ & _ & _ & _ & Tn & Tv).
  split.
  - exact (proj1 (Tv H)).
  - exact (Tn Hn).
Defined.

End JointFacts.

(* ================================================================= *)
(** * Initialisation with feedback: when it returns and what it did *)

Section BootstrapFacts.

Import Bootstrap.

(** The effects of [n] failed attempts. *)
Lemma flashes_delayed (n : nat) :
  delayed (concat (repeat flash n)) = (200 * Z.of_nat n)%Z.
Proof.
  induction n as [| n IH].
  - reflexivity.
  - change (concat (repeat flash (S n)))
      with (digitalWrite true :: delay 100 :: digitalWrite false
              :: delay 100 :: concat (repeat flash n)).
    cbn [delayed]. rewrite IH. lia.
Qed.

Lemma flashes_led (n : nat) (before : bool) :
  led_after before (concat (repeat flash n)) =
  match n with O => before | S _ => false end.
Proof.
  revert before. induction n as [| n IH]; intros before.
  - reflexivity.
  - change (concat (repeat flash (S n)))
      with (flash ++ concat (repeat flash n)).
    unfold led_after in *. rewrite fold_left_app. simpl fold_left at 2.
    rewrite IH. destruct n; reflexivity.
Qed.

Lemma init_returns (n : nat) :
  forall (fuel : nat) (initFunction : nat -> rcl_ret_t) (calls : nat),
    (forall j : nat, (j < n)%nat -> initFunction (calls + j)%nat <> RCL_RET_OK) ->
    initFunction (calls + n)%nat = RCL_RET_OK ->
    (n < fuel)%nat ->
    performInitializationWithFeedback fuel initFunction calls =
    Some (true, concat (repeat flash n)).
Proof.
  induction n as [| n IH]; intros fuel f calls Hfail Hok Hfuel.
  - destruct fuel as [| fuel]; [lia |]. simpl.
    rewrite Nat.add_0_r in Hok. rewrite Hok. reflexivity.
  - destruct fuel as [| fuel]; [lia |]. simpl.
    assert (H0 : f calls <> RCL_RET_OK).
    { specialize (Hfail 0%nat). rewrite Nat.add_0_r in Hfail.
      apply Hfail. lia. }
    apply Z.eqb_neq in H0. rewrite H0.
    rewrite (IH fuel f (S calls)).
    + reflexivity.
    + intros j Hj. replace (S calls + j)%nat with (calls + S j)%nat by lia.
      apply Hfail. lia.
    + replace (S calls + n)%nat with (calls + S n)%nat by lia. exact Hok.
    + lia.
Qed.

Lemma init_returned (fuel : nat) :
  forall (initFunction : nat -> rcl_ret_t) (calls : nat) (result : bool)
         (effects : list Effect),
    performInitializationWithFeedback fuel initFunction calls =
      Some (result, effects) ->
    result = true /\
    exists n : nat,
      (n < fuel)%nat /\
      effects = concat (repeat flash n) /\
      initFunction (calls + n)%nat = RCL_RET_OK /\
      (forall j : nat, (j < n)%nat ->
         initFunction (calls + j)%nat <> RCL_RET_OK).
Proof.
  induction fuel as [| fuel IH]; intros f calls result effects H.
  - discriminate.
  - simpl in H. destruct (Z.eqb (f calls) RCL_RET_OK) eqn:E.
    + injection H as <- <-. split; [reflexivity |].
      exists 0%nat. rewrite Nat.add_0_r. apply Z.eqb_eq in E.
      repeat split; [lia | exact E | intros j Hj; lia].
    + destruct (performInitializationWithFeedback fuel f (S calls))
        as [[r effs] |] eqn:Hrec; [| discriminate].
      injection H as <- <-.
      destruct (IH f (S calls) r effs Hrec) as (Hr & n & Hn & He & Hok & Hfail).
      split; [exact Hr |].
      exists (S n). repeat split.
      * lia.
      * rewrite He. reflexivity.
      * replace (calls + S n)%nat with (S calls + n)%nat by lia. exact Hok.
      * intros j Hj. destruct j as [| j].
        -- rewrite Nat.add_0_r. apply Z.eqb_neq. exact E.
        -- replace (calls + S j)%nat with (S calls + j)%nat by lia.
           apply Hfail. lia.
Qed.

(** X1: when the first successful call of the init function is call
    number [n], the retry loop returns [true] once it is given more than
    [n] iterations, having flashed the LED exactly [n] times: 200 n ms of
    delay, and the LED left low unless no attempt failed. *)
Theorem init_returns_after_first_success (n fuel : nat)
    (initFunction : nat -> rcl_ret_t) :
  (forall j : nat, (j < n)%nat -> initFunction j <> RCL_RET_OK) ->
  initFunction n = RCL_RET_OK ->
  (n < fuel)%nat ->
  exists effects : list Effect,
    performInitializationWithFeedback fuel initFunction 0 =
      Some (true, effects) /\
    effects = concat (repeat flash n) /\
    delayed effects = (200 * Z.of_nat n)%Z /\
    (forall before : bool,
       led_after before effects =
       match n with O => before | S _ => false end).
Proof.
  intros Hfail Hok Hfuel. exists (concat (repeat flash n)).
  split; [| split; [reflexivity | split]].
  - apply init_returns; assumption.
  - apply flashes_delayed.
  - intros before. apply flashes_led.
Qed.

Lemma init_returns_after_first_success_witness :
  exists effects : list Effect,
    performInitializationWithFeedback 5
      (fun k => if Nat.ltb k 2 then 1%Z else 0%Z) 0 = Some (true, effects) /\
    delayed effects = 400%Z.
Proof.
  assert (Hfail : forall j : nat, (j < 2)%nat ->
            (fun k => if Nat.ltb k 2 then 1%Z else 0%Z) j <> RCL_RET_OK).
  { intros j Hj. apply Nat.ltb_lt in Hj. rewrite Hj. discriminate. }
  assert (Hok : (fun k => if Nat.ltb k 2 then 1%Z else 0%Z) 2%nat
                = RCL_RET_OK) by reflexivity.
  assert (Hfuel : (2 < 5)%nat) by lia.
  destruct (init_returns_after_first_success 2 5 _ Hfail Hok Hfuel)
    as (effects & Hrun & _ & Hd & _).
  exists effects. split; [exact Hrun | exact Hd].
Defined.

(** X2: the retry loop never returns [false], and it returns only on a
    successful call: whenever it has returned, the effects are whole
    flashes, one for each failed call before the first success. *)
Theorem init_returns_only_on_success (fuel : nat)
    (initFunction : nat -> rcl_ret_t) (result : bool)
    (effects : list Effect) :
  performInitializationWithFeedback fuel initFunction 0 =
    Some (result, effects) ->
  result = true /\
  exists n : nat,
    effects = concat (repeat flash n) /\
    initFunction n = RCL_RET_OK /\
    (forall j : nat, (j < n)%nat -> initFunction j <> RCL_RET_OK).
Proof.
  intros H.
  destruct (init_returned fuel initFunction 0 result effects H)
    as (Hr & n & _ & He & Hok & Hfail).
  split; [exact Hr |]. exists n. simpl in Hok. auto.
Qed.

Lemma init_returns_only_on_success_witness :
  true = true /\
  exists n : nat,
    @nil Effect = concat (repeat flash n) /\
    (fun _ : nat => 0%Z) n = RCL_RET_OK /\
    (forall j : nat, (j < n)%nat -> (fun _ : nat => 0%Z) j <> RCL_RET_OK).
Proof.
  assert (H : performInitializationWithFeedback 1 (fun _ : nat => 0%Z) 0
              = Some (true, [])) by reflexivity.
  exact (init_returns_only_on_success 1 (fun _ : nat => 0%Z) true [] H).
Defined.

(** X3: when every call of the init function fails, the retry loop is
    still running after any number of iterations: it never returns. *)
Theorem init_blocks_while_failing (initFunction : nat -> rcl_ret_t) :
  (forall j : nat, initFunction j <> RCL_RET_OK) ->
  forall fuel calls : nat,
    performInitializationWithFeedback fuel initFunction calls = None.
Proof.
  intros Hfail fuel. induction fuel as [| fuel IH]; intros calls.
  - reflexivity.
  - simpl. specialize (Hfail calls). apply Z.eqb_neq in Hfail.
    rewrite Hfail, IH. reflexivity.
Qed.

Lemma init_blocks_while_failing_witness :
  performInitializationWithFeedback 100 (fun _ : nat => 1%Z) 0 = None.
Proof.
  assert (H : forall j : nat, (fun _ : nat => 1%Z) j <> RCL_RET_OK).
  { intros j. discriminate. }
  exact (init_blocks_while_failing (fun _ : nat => 1%Z) H 100%nat 0%nat).
Defined.

End BootstrapFacts.

(* ================================================================= *)
(** * The sampling interval of the odometry *)

Section ElapsedFacts.

Import Core.

Lemma elapsed_bounds (now last_time : Z) :
  0 <= elapsed now last_time < 4294967.296.
Proof.
  unfold elapsed, ULONG_MODULUS.
  pose proof (Z.mod_pos_bound (now - last_time) (2 ^ 32) eq_refl) as [Hlo Hhi].
  apply IZR_le in Hlo. apply IZR_lt in Hhi.
  change (IZR (2 ^ 32)) with 4294967296 in Hhi.
  split; lra.
Qed.

(** X4: the interval of line 421 is right across the wrap-around of
    [millis()]: when [d] milliseconds (fewer than 2^32) have passed since
    the reading [last_time], the interval is d / 1000 seconds even if the
    counter has wrapped; and whatever the two readings, the interval is
    never negative and stays below 2^32 ms. *)
Theorem elapsed_across_wraparound (last_time d now : Z) :
  (0 <= last_time < ULONG_MODULUS)%Z ->
  (0 <= d < ULONG_MODULUS)%Z ->
  elapsed ((last_time + d) mod ULONG_MODULUS) last_time = IZR d / 1000 /\
  0 <= elapsed now last_time < 4294967.296.
Proof.
  intros Hl Hd. split; [| apply elapsed_bounds].
  unfold elapsed. rewrite Zminus_mod_idemp_l.
  replace (last_time + d - last_time)%Z with d by lia.
  rewrite Z.mod_small by exact Hd. lra.
Qed.

Lemma elapsed_across_wraparound_witness :
  elapsed ((4294967290 + 16) mod ULONG_MODULUS) 4294967290 = IZR 16 / 1000.
Proof.
  assert (Hl : (0 <= 4294967290 < ULONG_MODULUS)%Z).
  { unfold ULONG_MODULUS. lia. }
  assert (Hd : (0 <= 16 < ULONG_MODULUS)%Z).
  { unfold ULONG_MODULUS. lia. }
  exact (proj1 (elapsed_across_wraparound 4294967290 16 0 Hl Hd)).
Defined.

End ElapsedFacts.

(* ================================================================= *)
(** * Dead reckoning along a run *)

Section PathFacts.

Import Kinematics Velocity Core Drive.

Lemma run_snoc (s : State) (inputs : list Inputs) (i : Inputs) :
  run s (inputs ++ [i]) = loop (run s inputs) i.
Proof. unfold run. rewrite fold_left_app. reflexivity. Qed.

Lemma integrate_pose_heading (p v : Vector3d) (dt : R) :
  - PI < v2 (integrate_pose p v dt) <= PI.
Proof. unfold integrate_pose; simpl. apply atan2_range. Qed.

(** The odometry message of a pass, field by field. *)
Lemma loop_odom_msg (s : State) (i : Inputs) :
  let o := odom_msg (loop s i) in
  let p := pose (loop s i) in
  position_x o = v0 p /\ position_y o = v1 p /\
  orientation_w o = cos (v2 p / 2.0) /\
  orientation_z o = sin (v2 p / 2.0) /\
  mkVector3d (twist_linear_x o) (twist_linear_y o) (twist_angular_z o) =
    estimate s i.
Proof.
  unfold loop, estimate.
  destruct (spin_some_frame s i) as (Hk & _).
  pose proof (velocity_update_estimate (robot_controller (spin_some s i))
    (kinematics (spin_some s i)) (motor_controller_M (spin_some s i))
    (controller_M (spin_some s i)) (encoder_velocity i) (control_dt i)) as He.
  destruct (Velocity.update _ _ _ _ _ _) as [[[vc ms] pids] outputs].
  simpl in *. rewrite <- Hk, <- He.
  destruct (get_robot_velocity vc). auto.
Qed.

(** X5: after every pass of [loop] the heading of the pose lies in
    (-PI, PI], whatever the state before, the encoder readings and the
    clock. *)
Theorem heading_stays_wrapped (s : State) (inputs : list Inputs) :
  inputs <> [] ->
  - PI < v2 (pose (run s inputs)) <= PI.
Proof.
  intros Hne.
  destruct (exists_last Hne) as (front & i & ->).
  rewrite run_snoc.
  destruct (loop_fields (run s front) i) as (_ & _ & Hp & _).
  rewrite Hp. apply integrate_pose_heading.
Qed.

Lemma heading_stays_wrapped_witness :
  - PI < v2 (pose (run (initial 0.05 0.1 0.1)
                       [mkInputs None (mkQuad 1 1 1 1) 0.01 100])) <= PI.
Proof.
  assert (H : [mkInputs None (mkQuad 1 1 1 1) 0.01 100] <> []).
  { discriminate. }
  exact (heading_stays_wrapped (initial 0.05 0.1 0.1)
           [mkInputs None (mkQuad 1 1 1 1) 0.01 100] H).
Defined.

(** X6: the orientation [loop] publishes is a unit quaternion about the
    z axis with a non-negative w, and it encodes the heading of the pose:
    the yaw read back from (w, z) is the heading; the position and the
    twist of the message are the pose and the velocity estimate of the
    pass. *)
Theorem published_orientation (s : State) (i : Inputs) :
  let o := odom_msg (loop s i) in
  let p := pose (loop s i) in
  orientation_w o * orientation_w o + orientation_z o * orientation_z o = 1 /\
  0 <= orientation_w o /\
  yaw_of (orientation_w o) (orientation_z o) = v2 p /\
  position_x o = v0 p /\ position_y o = v1 p /\
  mkVector3d (twist_linear_x o) (twist_linear_y o) (twist_angular_z o) =
    calculate_robot_velocity (kinematics s) (encoder_velocity i).
Proof.
  intros o p. subst o p.
  destruct (loop_odom_msg s i) as (Hx & Hy & Hw & Hz & Ht).
  destruct (loop_fields s i) as (_ & _ & Hp & _).
  pose proof (integrate_pose_heading (pose s) (estimate s i)
                (elapsed (now i) (last_time s))) as Hh.
  rewrite <- Hp in Hh.
  set (th := v2 (pose (loop s i))) in *.
  pose proof PI_RGT_0 as HPI.
  assert (Hhalf : th / 2.0 = th / 2) by lra.
  rewrite Hw, Hz, Hhalf.
  split.
  - pose proof (sin2_cos2 (th / 2)) as H. unfold Rsqr in H. lra.
  - split.
    + apply cos_ge_0; lra.
    + split.
      * unfold yaw_of. rewrite atan2_sin_cos by lra. lra.
      * auto.
Qed.

(** X7: one odometry step moves the position by exactly the body-frame
    speed times dt: rotating the velocity into the world frame changes
    its direction, not its length. *)
Theorem step_displacement (p v : Vector3d) (dt : R) :
  let p' := integrate_pose p v dt in
  (v0 p' - v0 p) * (v0 p' - v0 p) + (v1 p' - v1 p) * (v1 p' - v1 p) =
  (v0 v * v0 v + v1 v * v1 v) * (dt * dt).
Proof.
  intros p'. subst p'. unfold integrate_pose; simpl.
  pose proof (sin2_cos2 (v2 p)) as H. unfold Rsqr in H.
  transitivity ((v0 v * v0 v + v1 v * v1 v) * (dt * dt) *
                (sin (v2 p) * sin (v2 p) + cos (v2 p) * cos (v2 p))).
  - ring.
  - rewrite H. ring.
Qed.

Lemma integrate_path_cons (p : Vector3d) (step : Vector3d * R)
    (steps : list (Vector3d * R)) :
  integrate_path p (step :: steps) =
  integrate_path (integrate_pose p (fst step) (snd step)) steps.
Proof. reflexivity. Qed.

(** X8: wrapping loses no heading: along any series of steps the heading
    is the start heading plus the angle turned, up to whole turns. *)
Theorem heading_accumulates (steps : list (Vector3d * R)) (p : Vector3d) :
  exists k : Z,
    v2 (integrate_path p steps) = v2 p + turned steps + 2 * IZR k * PI.
Proof.
  revert p. induction steps as [| step steps IH]; intros p.
  - exists 0%Z. simpl. ring.
  - rewrite integrate_path_cons.
    destruct (IH (integrate_pose p (fst step) (snd step))) as [k1 Hk1].
    destruct (atan2_wraps (v2 p + v2 (fst step) * snd step)) as [k0 Hk0].
    exists (k0 + k1)%Z. rewrite Hk1.
    unfold integrate_pose at 1; simpl v2 at 1.
    rewrite Hk0, plus_IZR. simpl turned. ring.
Qed.

(** X9: driving without turning is integrated exactly: [n] steps at a
    heading in (-PI, PI] under the velocity (vx, vy, 0) move the position
    by n dt times the velocity rotated by the heading, and leave the
    heading as it was. *)
Theorem straight_line_exact (n : nat) (vx vy dt px py th : R) :
  - PI < th <= PI ->
  integrate_steps n (mkVector3d vx vy 0) dt (mkVector3d px py th) =
  mkVector3d (px + INR n * ((vx * cos th - vy * sin th) * dt))
             (py + INR n * ((vx * sin th + vy * cos th) * dt))
             th.
Proof.
  intros Hth. unfold integrate_steps.
  induction n as [| n IH].
  - simpl. apply vector3d_eq; ring.
  - rewrite S_INR. simpl Nat.iter. rewrite IH.
    unfold integrate_pose; simpl.
    replace (th + 0 * dt) with th by ring.
    rewrite atan2_sin_cos by exact Hth.
    apply vector3d_eq; ring.
Qed.

Lemma straight_line_exact_witness :
  integrate_steps 3 (mkVector3d 1 0 0) 0.5 (mkVector3d 0 0 0) =
  mkVector3d (0 + INR 3 * ((1 * cos 0 - 0 * sin 0) * 0.5))
             (0 + INR 3 * ((1 * sin 0 + 0 * cos 0) * 0.5))
             0.
Proof.
  assert (H : - PI < 0 <= PI) by (pose proof PI_RGT_0; lra).
  exact (straight_line_exact 3 1 0 0.5 0 0 0 H).
Defined.

(** X10: a pass that reads the same [millis()] value as the pass before
    integrates over a zero interval: the pose (its heading being wrapped
    already) and the joint positions stay as they were. *)
Theorem zero_interval_pass (s : State) (i : Inputs) :
  now i = last_time s ->
  - PI < v2 (pose s) <= PI ->
  pose (loop s i) = pose s /\
  position (joint_state_msg (loop s i)) = position (joint_state_msg s).
Proof.
  intros Hnow Hth.
  destruct (loop_fields s i) as (_ & _ & Hp & Hj & _).
  assert (E : elapsed (now i) (last_time s) = 0).
  { unfold elapsed. rewrite Hnow, Z.sub_diag, Z.mod_0_l by discriminate. lra. }
  rewrite Hp, Hj, E. split.
  - generalize (estimate s i). intros v. clear Hp Hj.
    unfold integrate_pose. destruct (pose s) as [px py th]; simpl in *.
    replace (th + v2 v * 0) with th by ring.
    rewrite atan2_sin_cos by exact Hth.
    apply vector3d_eq; ring.
  - unfold integrate_joints; simpl.
    destruct (position (joint_state_msg s)) as [a b c d]; simpl.
    apply quad_eq; ring.
Qed.

Lemma zero_interval_pass_witness :
  pose (loop (initial 0.05 0.1 0.1) (mkInputs None (mkQuad 1 1 1 1) 0.01 0))
  = pose (initial 0.05 0.1 0.1).
Proof.
  assert (Hnow : now (mkInputs None (mkQuad 1 1 1 1) 0.01 0) =
                 last_time (initial 0.05 0.1 0.1)) by reflexivity.
  assert (Hth : - PI < v2 (pose (initial 0.05 0.1 0.1)) <= PI).
  { simpl. pose proof PI_RGT_0. lra. }
  exact (proj1 (zero_interval_pass (initial 0.05 0.1 0.1)
                  (mkInputs None (mkQuad 1 1 1 1) 0.01 0) Hnow Hth)).
Defined.

End PathFacts.

(* ================================================================= *)
(** * The command path through [loop] *)

Section ControlFacts.

Import Kinematics Filters PID Motor Velocity Core Drive.

(** X11: the gain chosen for a command is one of three values between
    [base_ki] and twice [base_ki]; it is [base_ki] exactly when no
    component is above its threshold (the thresholds themselves count as
    below); and it depends on the magnitudes only: reversing the command
    selects the same gain. *)
Theorem select_ki_regimes (cmd : Vector3d) :
  (select_ki cmd = base_ki \/
   select_ki cmd = base_ki * modifier_ki_linear \/
   select_ki cmd = base_ki * modifier_ki_rotational) /\
  0.125 <= select_ki cmd <= 0.25 /\
  (select_ki cmd = base_ki <->
   Rabs (v0 cmd) <= 0.5 /\ Rabs (v1 cmd) <= 0.5 /\ Rabs (v2 cmd) <= 1.0) /\
  select_ki (mkVector3d (- v0 cmd) (- v1 cmd) (- v2 cmd)) = select_ki cmd.
Proof.
  assert (Hsym : select_ki (mkVector3d (- v0 cmd) (- v1 cmd) (- v2 cmd))
                 = select_ki cmd).
  { unfold select_ki; simpl. rewrite !Rabs_Ropp. reflexivity. }
  rewrite Hsym. clear Hsym.
  destruct (Rlt_dec 0.5 (Rabs (v0 cmd))) as [H0 | H0].
  - rewrite (select_ki_linear cmd) by (left; exact H0).
    unfold base_ki, modifier_ki_linear.
    split; [right; left; reflexivity |]. split; [lra |].
    split; [| reflexivity].
    split; [intros H; lra | intros (A & B & C); lra].
  - apply Rnot_lt_le in H0.
    destruct (Rlt_dec 0.5 (Rabs (v1 cmd))) as [H1 | H1].
    + rewrite (select_ki_linear cmd) by (right; exact H1).
      unfold base_ki, modifier_ki_linear.
      split; [right; left; reflexivity |]. split; [lra |].
      split; [| reflexivity].
      split; [intros H; lra | intros (A & B & C); lra].
    + apply Rnot_lt_le in H1.
      assert (Hl : ~ (Rabs (v0 cmd) > 0.5 \/ Rabs (v1 cmd) > 0.5)).
      { intros [H | H]; lra. }
      destruct (Rlt_dec 1.0 (Rabs (v2 cmd))) as [H2 | H2].
      * rewrite (select_ki_rotational cmd Hl H2).
        unfold base_ki, modifier_ki_rotational.
        split; [right; right; reflexivity |]. split; [lra |].
        split; [| reflexivity].
        split; [intros H; lra | intros (A & B & C); lra].
      * rewrite (select_ki_base cmd Hl) by (unfold Rgt; exact H2).
        apply Rnot_lt_le in H2. unfold base_ki.
        split; [left; reflexivity |]. split; [lra |].
        split; [| reflexivity].
        split; [intros _; auto | intros _; reflexivity].
Qed.

(** [loop] after the executor has run: the controller update on the
    state the executor left. *)
Lemma loop_control (s : State) (i : Inputs) :
  let s1 := spin_some s i in
  let targets :=
    calculate_wheel_velocity (kinematics s1)
      (latest_command_ (robot_controller s1)) in
  (motor_controller_M (loop s i), controller_M (loop s i),
   driver_M (loop s i)) =
    update_all (set_targets (motor_controller_M s1) targets)
               (controller_M s1) (encoder_velocity i) (control_dt i) /\
  latest_command_ (robot_controller (loop s i)) =
    latest_command_ (robot_controller s1) /\
  cmd_vel_filter_x (loop s i) = cmd_vel_filter_x s1 /\
  cmd_vel_filter_y (loop s i) = cmd_vel_filter_y s1 /\
  cmd_vel_filter_rot (loop s i) = cmd_vel_filter_rot s1 /\
  smoothed_cmd_vel (loop s i) = smoothed_cmd_vel s1 /\
  wanted_joint_state_msg (loop s i) =
    store_wanted (wanted_joint_state_msg s1)
                 (get_set_velocities (motor_controller_M (loop s i))).
Proof.
  unfold loop, Velocity.update.
  destruct (update_all _ _ _ _) as [[ms2 pids2] outputs].
  simpl. auto 10.
Qed.

Lemma update_all_eq (ms : Quad PIDMotorController)
    (pids : Quad PIDController) (e : Vector4d) (dt : R) :
  update_all ms pids e dt =
  (mkQuad (fst (fst (Motor.update (q0 ms) (q0 pids) (q0 e) dt)))
          (fst (fst (Motor.update (q1 ms) (q1 pids) (q1 e) dt)))
          (fst (fst (Motor.update (q2 ms) (q2 pids) (q2 e) dt)))
          (fst (fst (Motor.update (q3 ms) (q3 pids) (q3 e) dt))),
   mkQuad (snd (fst (Motor.update (q0 ms) (q0 pids) (q0 e) dt)))
          (snd (fst (Motor.update (q1 ms) (q1 pids) (q1 e) dt)))
          (snd (fst (Motor.update (q2 ms) (q2 pids) (q2 e) dt)))
          (snd (fst (Motor.update (q3 ms) (q3 pids) (q3 e) dt))),
   mkQuad (snd (Motor.update (q0 ms) (q0 pids) (q0 e) dt))
          (snd (Motor.update (q1 ms) (q1 pids) (q1 e) dt))
          (snd (Motor.update (q2 ms) (q2 pids) (q2 e) dt))
          (snd (Motor.update (q3 ms) (q3 pids) (q3 e) dt))).
Proof.
  unfold update_all.
  destruct (Motor.update (q0 ms) _ _ _) as [[m0 p0] o0].
  destruct (Motor.update (q1 ms) _ _ _) as [[m1 p1] o1].
  destruct (Motor.update (q2 ms) _ _ _) as [[m2 p2] o2].
  destruct (Motor.update (q3 ms) _ _ _) as [[m3 p3] o3].
  reflexivity.
Qed.

(** One channel update: the channel keeps target and minimum, the
    regulator is the one a [compute] call leaves. *)
Lemma update_keeps (m : PIDMotorController) (pid : PIDController)
    (e dt : R) :
  target_ (fst (fst (Motor.update m pid e dt))) = target_ m /\
  min_output_ (fst (fst (Motor.update m pid e dt))) = min_output_ m /\
  exists input : R,
    snd (fst (Motor.update m pid e dt)) =
    fst (compute pid (target_ m) input dt).
Proof.
  unfold Motor.update, regulate.
  destruct (Filters.update (input_filter_ m) e) as [fi input].
  destruct (compute pid (target_ m) input dt) as [pid' output] eqn:E.
  destruct (Filters.update (output_filter_ m) output) as [fo filtered].
  simpl. split; [reflexivity |]. split; [reflexivity |].
  exists input. rewrite E. reflexivity.
Qed.

Lemma compute_ki (c : PIDController) (setpoint measured dt : R) :
  ki (fst (compute c setpoint measured dt)) = ki c.
Proof. unfold compute. destruct (degenerate_dt c dt); reflexivity. Qed.

(** After the array update the channels hold the targets they were
    given. *)
Lemma update_all_targets (ms : Quad PIDMotorController)
    (pids : Quad PIDController) (e targets : Vector4d) (dt : R) :
  get_set_velocities
    (fst (fst (update_all (set_targets ms targets) pids e dt))) = targets.
Proof.
  rewrite update_all_eq.
  unfold get_set_velocities, quad_map, get_target_velocity.
  cbn [fst snd q0 q1 q2 q3].
  destruct (update_keeps (q0 (set_targets ms targets)) (q0 pids) (q0 e) dt)
    as (T0 & _).
  destruct (update_keeps (q1 (set_targets ms targets)) (q1 pids) (q1 e) dt)
    as (T1 & _).
  destruct (update_keeps (q2 (set_targets ms targets)) (q2 pids) (q2 e) dt)
    as (T2 & _).
  destruct (update_keeps (q3 (set_targets ms targets)) (q3 pids) (q3 e) dt)
    as (T3 & _).
  rewrite T0, T1, T2, T3.
  destruct targets; reflexivity.
Qed.

(** The targets the channels hold after a pass are the inverse
    kinematics of the command tracked after the executor ran. *)
Lemma loop_targets (s : State) (i : Inputs) :
  get_set_velocities (motor_controller_M (loop s i)) =
  calculate_wheel_velocity (kinematics s)
    (latest_command_ (robot_controller (spin_some s i))).
Proof.
  destruct (loop_control s i) as (Hu & _).
  destruct (spin_some_frame s i) as (Hk & _).
  cbv zeta in Hu. apply (f_equal (fun t => fst (fst t))) in Hu.
  cbn [fst] in Hu. rewrite Hu, update_all_targets, Hk. reflexivity.
Qed.

Lemma callback_channels (s : State) (msg : Twist) :
  motor_controller_M (cmd_vel_subscription_callback s msg) =
  motor_controller_M s.
Proof.
  unfold cmd_vel_subscription_callback.
  destruct (Filters.update (cmd_vel_filter_x s) _) as [fx sx].
  destruct (Filters.update (cmd_vel_filter_y s) _) as [fy sy].
  destruct (Filters.update (cmd_vel_filter_rot s) _) as [fr sr].
  reflexivity.
Qed.

Lemma callback_command_path (s s' : State) (msg : Twist) :
  command_path s = command_path s' ->
  command_path (cmd_vel_subscription_callback s msg) =
  command_path (cmd_vel_subscription_callback s' msg).
Proof.
  unfold command_path. intros H. injection H as _ Hx Hy Hr _.
  unfold cmd_vel_subscription_callback. rewrite Hx, Hy, Hr.
  destruct (Filters.update (cmd_vel_filter_x s') _) as [fx sx].
  destruct (Filters.update (cmd_vel_filter_y s') _) as [fy sy].
  destruct (Filters.update (cmd_vel_filter_rot s') _) as [fr sr].
  reflexivity.
Qed.

Lemma loop_command_path (s : State) (i : Inputs) :
  command_path (loop s i) = command_path (spin_some s i).
Proof.
  destruct (loop_control s i) as (_ & Hl & Hx & Hy & Hr & Hs & _).
  unfold command_path. rewrite Hl, Hx, Hy, Hr, Hs. reflexivity.
Qed.

Lemma delivered_snoc (inputs : list Inputs) (i : Inputs) :
  delivered (inputs ++ [i]) =
  delivered inputs ++
    match incoming i with Some msg => [msg] | None => [] end.
Proof.
  unfold delivered. rewrite flat_map_app. simpl. rewrite app_nil_r.
  reflexivity.
Qed.

Lemma delivered_quiet (inputs : list Inputs) :
  Forall quiet inputs -> delivered inputs = [].
Proof.
  intros Hq. induction Hq as [| i inputs Hi _ IH].
  - reflexivity.
  - unfold delivered in *. simpl. unfold quiet in Hi. rewrite Hi, IH.
    reflexivity.
Qed.

(** X13: the control work of [loop] never disturbs the command path:
    after any series of passes the tracked command, the three command
    filters and the smoothed command are what the callback alone leaves
    on the messages delivered, in their order; passes without a message
    change none of them (the last command stays tracked). *)
Theorem command_path_follows_messages (s : State) (inputs : list Inputs) :
  command_path (run s inputs) = command_path (receive s (delivered inputs)) /\
  (Forall quiet inputs -> command_path (run s inputs) = command_path s).
Proof.
  assert (H : command_path (run s inputs) =
              command_path (receive s (delivered inputs))).
  { induction inputs as [| i inputs IH] using rev_ind.
    - reflexivity.
    - rewrite run_snoc, delivered_snoc, loop_command_path.
      unfold spin_some. destruct (incoming i) as [msg |].
      + rewrite receive_snoc. apply callback_command_path. exact IH.
      + rewrite app_nil_r. exact IH. }
  split; [exact H |].
  intros Hq. rewrite H, (delivered_quiet inputs Hq). reflexivity.
Qed.

Lemma command_path_follows_messages_witness :
  command_path (run (initial 0.05 0.1 0.1)
                    [mkInputs None (mkQuad 1 1 1 1) 0.01 10]) =
  command_path (initial 0.05 0.1 0.1).
Proof.
  assert (Hq : Forall quiet [mkInputs None (mkQuad 1 1 1 1) 0.01 10]).
  { constructor; [reflexivity | constructor]. }
  exact (proj2 (command_path_follows_messages (initial 0.05 0.1 0.1)
                  [mkInputs None (mkQuad 1 1 1 1) 0.01 10]) Hq).
Defined.

(** The regulators after a pass: each is what one [compute] call leaves
    of the regulator the executor left. *)
Lemma loop_regulators (s : State) (i : Inputs) :
  quad_all (fun p => exists setpoint input : R,
              snd p = fst (compute (fst p) setpoint input (control_dt i)))
           (quad_zip pair (controller_M (spin_some s i))
                          (controller_M (loop s i))).
Proof.
  destruct (loop_control s i) as (Hu & _). cbv zeta in Hu.
  apply (f_equal (fun t => snd (fst t))) in Hu. cbn [fst snd] in Hu.
  rewrite Hu, update_all_eq. cbn [fst snd].
  unfold quad_all, quad_zip. cbn [fst snd q0 q1 q2 q3].
  repeat split.
  - destruct (update_keeps
      (q0 (set_targets (motor_controller_M (spin_some s i))
             (calculate_wheel_velocity (kinematics (spin_some s i))
                (latest_command_ (robot_controller (spin_some s i))))))
      (q0 (controller_M (spin_some s i)))
      (q0 (encoder_velocity i)) (control_dt i)) as (_ & _ & input & H).
    eexists. exists input. exact H.
  - destruct (update_keeps
      (q1 (set_targets (motor_controller_M (spin_some s i))
             (calculate_wheel_velocity (kinematics (spin_some s i))
                (latest_command_ (robot_controller (spin_some s i))))))
      (q1 (controller_M (spin_some s i)))
      (q1 (encoder_velocity i)) (control_dt i)) as (_ & _ & input & H).
    eexists. exists input. exact H.
  - destruct (update_keeps
      (q2 (set_targets (motor_controller_M (spin_some s i))
             (calculate_wheel_velocity (kinematics (spin_some s i))
                (latest_command_ (robot_controller (spin_some s i))))))
      (q2 (controller_M (spin_some s i)))
      (q2 (encoder_velocity i)) (control_dt i)) as (_ & _ & input & H).
    eexists. exists input. exact H.
  - destruct (update_keeps
      (q3 (set_targets (motor_controller_M (spin_some s i))
             (calculate_wheel_velocity (kinematics (spin_some s i))
                (latest_command_ (robot_controller (spin_some s i))))))
      (q3 (controller_M (spin_some s i)))
      (q3 (encoder_velocity i)) (control_dt i)) as (_ & _ & input & H).
    eexists. exists input. exact H.
Qed.

(** One channel given a target and updated: what goes to the driver is
    the deadband of the channel's minimum on that target. *)
Lemma update_after_set_target (m : PIDMotorController)
    (pid : PIDController) (t e dt : R) :
  exists filtered : R,
    snd (Motor.update (set_target m t) pid e dt) =
    deadband (min_output_ m) t filtered.
Proof.
  exists (snd (regulate (set_target m t) pid e dt)).
  rewrite update_regulate. reflexivity.
Qed.

Lemma spin_some_channels (s : State) (i : Inputs) :
  motor_controller_M (spin_some s i) = motor_controller_M s.
Proof.
  unfold spin_some. destruct (incoming i).
  - apply callback_channels.
  - reflexivity.
Qed.

(** The channels keep their minimum output through a pass. *)
Lemma loop_min_output (s : State) (i : Inputs) :
  quad_map min_output_ (motor_controller_M (loop s i)) =
  quad_map min_output_ (motor_controller_M s).
Proof.
  destruct (loop_control s i) as (Hu & _). cbv zeta in Hu.
  apply (f_equal (fun t => fst (fst t))) in Hu. cbn [fst] in Hu.
  rewrite Hu, update_all_eq, spin_some_channels. cbn [fst snd].
  set (targets := calculate_wheel_velocity _ _).
  set (ms := motor_controller_M s).
  unfold quad_map. cbn [q0 q1 q2 q3].
  destruct (update_keeps (q0 (set_targets ms targets))
              (q0 (controller_M (spin_some s i)))
              (q0 (encoder_velocity i)) (control_dt i)) as (_ & M0 & _).
  destruct (update_keeps (q1 (set_targets ms targets))
              (q1 (controller_M (spin_some s i)))
              (q1 (encoder_velocity i)) (control_dt i)) as (_ & M1 & _).
  destruct (update_keeps (q2 (set_targets ms targets))
              (q2 (controller_M (spin_some s i)))
              (q2 (encoder_velocity i)) (control_dt i)) as (_ & M2 & _).
  destruct (update_keeps (q3 (set_targets ms targets))
              (q3 (controller_M (spin_some s i)))
              (q3 (encoder_velocity i)) (control_dt i)) as (_ & M3 & _).
  rewrite M0, M1, M2, M3. reflexivity.
Qed.

(** The driver outputs of a pass, wheel by wheel. *)
Lemma loop_outputs (s : State) (i : Inputs) :
  quad_all (fun p => exists filtered : R,
              snd (snd p) = deadband (min_output_ (fst p)) (fst (snd p))
                                     filtered)
    (quad_zip pair (motor_controller_M s) (target_and_output (loop s i))).
Proof.
  unfold target_and_output.
  destruct (loop_control s i) as (Hu & _).
  rewrite loop_targets. cbv zeta in Hu.
  apply (f_equal snd) in Hu. cbn [snd] in Hu.
  rewrite Hu, update_all_eq, spin_some_channels. cbn [snd].
  destruct (spin_some_frame s i) as (Hk & _). rewrite Hk.
  set (targets := calculate_wheel_velocity _ _).
  unfold quad_all, quad_zip, set_targets. cbn [fst snd q0 q1 q2 q3].
  repeat split; apply update_after_set_target.
Qed.

Lemma configured_loop (s : State) (i : Inputs) :
  configured s -> configured (loop s i).
Proof.
  unfold configured, quad_all. intros (H0 & H1 & H2 & H3).
  pose proof (loop_min_output s i) as E. unfold quad_map in E.
  injection E as E0 E1 E2 E3.
  rewrite E0, E1, E2, E3. auto.
Qed.

Lemma configured_run (inputs : list Inputs) (s : State) :
  configured s -> configured (run s inputs).
Proof.
  unfold run. revert s.
  induction inputs as [| i inputs IH]; intros s H; simpl.
  - exact H.
  - apply IH. apply configured_loop. exact H.
Qed.

(** X15: with the motor channel of section 4.4 wired in as [core.cpp]
    constructs it (minimum output [MIN_OUTPUT] = 0.35), after every pass
    of [loop] each motor driver whose channel holds a nonzero target has
    been handed either exactly zero or a duty cycle of magnitude at least
    0.35, whatever commands, encoder readings and intervals came
    before. *)
Theorem drivers_respect_deadband (r a b : R) (h : Heap)
    (inputs : list Inputs) :
  inputs <> [] ->
  quad_all (fun p => fst p <> 0 -> snd p = 0 \/ 0.35 <= Rabs (snd p))
    (target_and_output (run (setup (initial r a b) h) inputs)).
Proof.
  intros Hne. destruct (exists_last Hne) as (front & i & ->).
  rewrite run_snoc.
  assert (Hc : configured (run (setup (initial r a b) h) front)).
  { apply configured_run. unfold configured, quad_all; simpl. auto. }
  pose proof (loop_outputs (run (setup (initial r a b) h) front) i) as Ho.
  unfold configured, quad_all in Hc. destruct Hc as (C0 & C1 & C2 & C3).
  unfold quad_all, quad_zip in *. cbn [fst snd q0 q1 q2 q3] in *.
  rewrite C0, C1, C2, C3 in Ho.
  destruct Ho as ((f0 & O0) & (f1 & O1) & (f2 & O2) & (f3 & O3)).
  change 0.35 with MIN_OUTPUT.
  repeat split; intros Ht.
  - rewrite O0. apply deadband_floor. exact Ht.
  - rewrite O1. apply deadband_floor. exact Ht.
  - rewrite O2. apply deadband_floor. exact Ht.
  - rewrite O3. apply deadband_floor. exact Ht.
Qed.

Lemma drivers_respect_deadband_witness :
  quad_all (fun p => fst p <> 0 -> snd p = 0 \/ 0.35 <= Rabs (snd p))
    (target_and_output
       (run (setup (initial 0.05 0.1 0.1)
               (mkHeap (repeat 0 36) (mkQuad 0 0 0 0) (mkQuad 0 0 0 0)))
            [mkInputs (Some (twist_of 0.5 0 0)) (mkQuad 0 0 0 0) 0.01 10])).
Proof.
  assert (H : [mkInputs (Some (twist_of 0.5 0 0)) (mkQuad 0 0 0 0) 0.01 10]
              <> []) by discriminate.
  exact (drivers_respect_deadband 0.05 0.1 0.1
           (mkHeap (repeat 0 36) (mkQuad 0 0 0 0) (mkQuad 0 0 0 0))
           [mkInputs (Some (twist_of 0.5 0 0)) (mkQuad 0 0 0 0) 0.01 10] H).
Defined.

Lemma regulators_clamped_callback (s : State) (msg : Twist) :
  regulators_clamped s ->
  regulators_clamped (cmd_vel_subscription_callback s msg).
Proof.
  unfold regulators_clamped. rewrite callback_controllers.
  unfold quad_all, quad_map, integral_clamped; simpl. auto.
Qed.

Lemma regulators_clamped_loop (s : State) (i : Inputs) :
  regulators_clamped s -> regulators_clamped (loop s i).
Proof.
  intros H.
  assert (H1 : regulators_clamped (spin_some s i)).
  { unfold spin_some. destruct (incoming i).
    - apply regulators_clamped_callback. exact H.
    - exact H. }
  pose proof (loop_regulators s i) as L.
  unfold regulators_clamped, quad_all, quad_zip in *.
  cbn [fst snd q0 q1 q2 q3] in L.
  destruct H1 as ((M0 & I0) & (M1 & I1) & (M2 & I2) & (M3 & I3)).
  destruct L as ((a0 & b0 & L0) & (a1 & b1 & L1) & (a2 & b2 & L2)
                 & (a3 & b3 & L3)).
  rewrite L0, L1, L2, L3, !compute_max_integral.
  repeat split; try assumption; apply compute_integral_clamped; assumption.
Qed.

Lemma regulators_clamped_run (inputs : list Inputs) (s : State) :
  regulators_clamped s -> regulators_clamped (run s inputs).
Proof.
  unfold run. revert s.
  induction inputs as [| i inputs IH]; intros s H; simpl.
  - exact H.
  - apply IH. apply regulators_clamped_loop. exact H.
Qed.

Lemma max_integral_loop (s : State) (i : Inputs) :
  quad_map PID.max_integral (controller_M (loop s i)) =
  quad_map PID.max_integral (controller_M s).
Proof.
  pose proof (loop_regulators s i) as L.
  unfold quad_all, quad_zip in L. cbn [fst snd q0 q1 q2 q3] in L.
  destruct L as ((a0 & b0 & L0) & (a1 & b1 & L1) & (a2 & b2 & L2)
                 & (a3 & b3 & L3)).
  unfold quad_map. rewrite L0, L1, L2, L3, !compute_max_integral.
  unfold spin_some. destruct (incoming i) as [msg |]; [| reflexivity].
  rewrite callback_controllers. reflexivity.
Qed.

Lemma max_integral_run (inputs : list Inputs) (s : State) :
  quad_map PID.max_integral (controller_M (run s inputs)) =
  quad_map PID.max_integral (controller_M s).
Proof.
  unfold run. revert s.
  induction inputs as [| i inputs IH]; intros s; simpl.
  - reflexivity.
  - rewrite IH. apply max_integral_loop.
Qed.

(** X16: anti-windup holds for the whole firmware: from the start state,
    through [setup] and any series of passes, with commands retuning [ki]
    in between, the integral accumulator of each of the four regulators
    stays within [max_integral] = 5.2 in magnitude. *)
Theorem regulators_never_wind_up (r a b : R) (h : Heap)
    (inputs : list Inputs) :
  quad_all (fun c => Rabs (integral c) <= 5.2)
    (controller_M (run (setup (initial r a b) h) inputs)).
Proof.
  assert (H0 : regulators_clamped (setup (initial r a b) h)).
  { unfold regulators_clamped, quad_all, integral_clamped; simpl.
    unfold Core.max_integral. repeat split; lra. }
  pose proof (regulators_clamped_run inputs _ H0) as H.
  pose proof (max_integral_run inputs (setup (initial r a b) h)) as M.
  unfold quad_map in M. simpl in M. injection M as M0 M1 M2 M3.
  unfold regulators_clamped, quad_all in *.
  destruct H as ((_ & I0) & (_ & I1) & (_ & I2) & (_ & I3)).
  apply integral_clamped_abs in I0, I1, I2, I3.
  rewrite M0 in I0. rewrite M1 in I1. rewrite M2 in I2. rewrite M3 in I3.
  unfold Core.max_integral in *. auto.
Qed.

End ControlFacts.

(* ================================================================= *)
(** * [setup] and the message buffers *)

Section BufferFacts.

Import Kinematics Motor Core Drive.

Ltac buffer_cells l :=
  do 36 (destruct l as [| ? l]; [discriminate |]);
  destruct l as [| ? l]; [| discriminate].

(** X17: the zeroing loop of [setup] on its own clears exactly the
    off-diagonal cells: a cell whose index is a multiple of 7 keeps
    whatever [malloc] returned, every other cell is 0, and the buffer
    keeps its 36 cells; so the diagonal is defined only by the six
    assignments that follow. *)
Theorem zeroing_loop_spares_diagonal (cells0 : list R) (i : nat) :
  length cells0 = 36%nat -> (i < 36)%nat ->
  nth i (clear_off_diagonal cells0) 0 =
    (if Nat.eqb (i mod 7) 0 then nth i cells0 0 else 0) /\
  length (clear_off_diagonal cells0) = 36%nat.
Proof.
  intros H Hi. buffer_cells cells0.
  cbv [clear_off_diagonal fold_left seq store negb
       Nat.eqb Nat.modulo Nat.divmod Nat.add Nat.sub fst snd].
  split; [| reflexivity].
  do 36 (destruct i as [| i];
         [cbv [nth Nat.eqb Nat.modulo Nat.divmod fst snd Nat.sub];
          try reflexivity; lra |]).
  exfalso. lia.
Qed.

Lemma zeroing_loop_spares_diagonal_witness :
  nth 7 (clear_off_diagonal (repeat 3 36)) 0 =
    (if Nat.eqb (7 mod 7) 0 then nth 7 (repeat 3 36) 0 else 0).
Proof.
  assert (H : length (repeat 3 36) = 36%nat) by reflexivity.
  assert (Hi : (7 < 36)%nat) by lia.
  exact (proj1 (zeroing_loop_spares_diagonal (repeat 3 36) 7 H Hi)).
Defined.

Lemma slack_loop (s : State) (i : Inputs) :
  slack (position (joint_state_msg (loop s i))) =
  slack (position (joint_state_msg s)).
Proof.
  destruct (loop_fields s i) as (_ & _ & _ & Hj & _).
  rewrite Hj, integrate_joints_position.
  pose proof (wheel_velocity_consistent (kinematics s) (estimate s i)) as Hc.
  unfold projected. unfold consistent in Hc.
  destruct (calculate_wheel_velocity (kinematics s) (estimate s i))
    as [w0 w1 w2 w3].
  destruct (position (joint_state_msg s)) as [p0 p1 p2 p3].
  unfold slack, quad_zip; simpl in *. nra.
Qed.

(** X18: the published wheel positions can never drift apart
    kinematically: front-left + front-right - back-left - back-right of
    the accumulated positions is the same after any series of passes as
    before it, because only consistent wheel velocities are integrated. *)
Theorem wheel_positions_keep_slack (s : State) (inputs : list Inputs) :
  slack (position (joint_state_msg (run s inputs))) =
  slack (position (joint_state_msg s)).
Proof.
  unfold run. revert s. induction inputs as [| i inputs IH]; intros s; simpl.
  - reflexivity.
  - rewrite IH. apply slack_loop.
Qed.

(** X19: [setup] allocates the joint position array without writing it,
    so every published wheel position is the wheel travel on top of
    whatever [malloc] returned: two boots that differ only in that memory
    publish positions that differ by it for ever, while the published
    velocities do not depend on it. *)
Theorem positions_start_from_heap (s : State) (h h' : Heap)
    (inputs : list Inputs) :
  position (joint_state_msg (run (setup s h) inputs)) =
    quad_zip Rplus (position_cells h)
             (travel (kinematics s) (last_time s) inputs) /\
  quad_zip Rminus (position (joint_state_msg (run (setup s h) inputs)))
                  (position (joint_state_msg (run (setup s h') inputs))) =
    quad_zip Rminus (position_cells h) (position_cells h') /\
  (inputs <> [] ->
   velocity (joint_state_msg (run (setup s h) inputs)) =
   velocity (joint_state_msg (run (setup s h') inputs))).
Proof.
  assert (P : forall g : Heap,
            position (joint_state_msg (run (setup s g) inputs)) =
            quad_zip Rplus (position_cells g)
                     (travel (kinematics s) (last_time s) inputs)).
  { intros g. rewrite run_position. reflexivity. }
  split; [apply P |]. split.
  - rewrite (P h), (P h').
    destruct (position_cells h), (position_cells h'),
      (travel (kinematics s) (last_time s) inputs).
    unfold quad_zip; simpl. apply quad_eq; ring.
  - intros Hne. destruct (exists_last Hne) as (front & i & ->).
    rewrite !run_snoc.
    destruct (loop_fields (run (setup s h) front) i)
      as (_ & _ & _ & Hj & _).
    destruct (loop_fields (run (setup s h') front) i)
      as (_ & _ & _ & Hj' & _).
    rewrite Hj, Hj', !integrate_joints_velocity.
    unfold projected, estimate. rewrite !run_kinematics. reflexivity.
Qed.

Lemma positions_start_from_heap_witness :
  velocity (joint_state_msg
    (run (setup (initial 0.05 0.1 0.1)
            (mkHeap (repeat 0 36) (mkQuad 1 2 3 4) (mkQuad 0 0 0 0)))
         [mkInputs None (mkQuad 1 1 1 1) 0.01 10])) =
  velocity (joint_state_msg
    (run (setup (initial 0.05 0.1 0.1)
            (mkHeap (repeat 0 36) (mkQuad 0 0 0 0) (mkQuad 5 6 7 8)))
         [mkInputs None (mkQuad 1 1 1 1) 0.01 10])).
Proof.
  assert (H : [mkInputs None (mkQuad 1 1 1 1) 0.01 10] <> [])
    by discriminate.
  exact (proj2 (proj2 (positions_start_from_heap (initial 0.05 0.1 0.1)
           (mkHeap (repeat 0 36) (mkQuad 1 2 3 4) (mkQuad 0 0 0 0))
           (mkHeap (repeat 0 36) (mkQuad 0 0 0 0) (mkQuad 5 6 7 8))
           [mkInputs None (mkQuad 1 1 1 1) 0.01 10])) H).
Defined.






End BufferFacts.

(* ================================================================= *)
(** * A command that is held *)

Section HeldCommandFacts.

Import Kinematics Filters PID Velocity Core.

Lemma mean_two (a : R) : mean [a; a] = a.
Proof. unfold mean, Filters.sum; simpl. field. Qed.

Lemma mean_four (a : R) : mean [a; a; a; a] = a.
Proof. unfold mean, Filters.sum; simpl. field. Qed.

Lemma smooth_held (r a b : R) (msgs : list Twist) (msg : Twist) :
  smooth (receive (initial r a b) (msgs ++ [msg; msg; msg])) msg =
  raw_command msg.
Proof.
  unfold smooth, raw_command.
  destruct (receive_filters (initial r a b) (msgs ++ [msg; msg; msg]))
    as (Hx & Hy & Hr).
  rewrite Hx, Hy, Hr.
  change (cmd_vel_filter_x (initial r a b)) with (MovingAverageFilter 2).
  change (cmd_vel_filter_y (initial r a b)) with (MovingAverageFilter 2).
  change (cmd_vel_filter_rot (initial r a b)) with (MovingAverageFilter 4).
  rewrite !feed_update, !map_app, !rev_app_distr. simpl.
  rewrite !mean_two, mean_four. reflexivity.
Qed.

(** X20: smoothing delays a command, it does not distort one that is
    held: once the same message has arrived four times in a row, whatever
    came before, the tracked command is the received command itself and
    all four regulators carry the gain its raw values select. *)
Theorem held_command_tracked (r a b : R) (msgs : list Twist) (msg : Twist) :
  let s' := receive (initial r a b) (msgs ++ [msg; msg; msg; msg]) in
  latest_command_ (robot_controller s') = raw_command msg /\
  quad_all (fun c => ki c = select_ki (raw_command msg)) (controller_M s').
Proof.
  intros s'. subst s'.
  replace (msgs ++ [msg; msg; msg; msg])
    with ((msgs ++ [msg; msg; msg]) ++ [msg])
    by (rewrite <- app_assoc; reflexivity).
  rewrite receive_snoc, callback_latest_command.
  split.
  - apply smooth_held.
  - rewrite <- (smooth_held r a b msgs msg). apply callback_ki.
Qed.

End HeldCommandFacts.
